(** * p1-forms: the API-access layer of the PingOne forms utility

    A shallow embedding of [config.ts], [auth.ts], [api.ts] and [forms.ts],
    and of the directory scan of [fsio.ts] and the prompts of [ui.ts].

    The asynchronous code runs on one cooperative thread, so every
    [async] function is a state transformer over a [World]: the token
    cache of [auth.ts], the clock behind [Date.now()], the log of the
    requests put on the wire and the log of the [setTimeout] delays.
    A rejected promise is the [Throw] outcome.  The remote platform is a
    deterministic function of the requests it has seen so far.

    [console.log] output (the [verbose] flag) has no effect on any value
    or request and is left out. *)

From Stdlib Require Import ZArith Lia List Ascii String Sorting Permutation.
From stdpp Require Import base option list strings gmap pretty.

Local Open Scope Z_scope.
Local Open Scope string_scope.

(** ** types.ts *)

Inductive RegionTLD := com | eu | ca | asia | com_au | sg.

(** The string a [RegionTLD] stands for (the type is a union of string
    literals). *)
Definition tld_string (tld : RegionTLD) : string :=
  match tld with
  | com => "com" | eu => "eu" | ca => "ca"
  | asia => "asia" | com_au => "com.au" | sg => "sg"
  end.

Module EnvConfig.
Record t := mk {
  name : string;
  envId : string;
  clientId : string;
  clientSecret : string;
  tld : RegionTLD }.
End EnvConfig.
Abbreviation EnvConfig := EnvConfig.t.

Module FormSummary.
Record t := mk {
  id : string;
  name : string;
  description : option string }.
End FormSummary.
Abbreviation FormSummary := FormSummary.t.

Module LocalFormFile.
Record t := mk {
  filename : string;
  name : string;
  isValid : bool;
  error : option string }.
End LocalFormFile.
Abbreviation LocalFormFile := LocalFormFile.t.

Record TokenResponse := {
  access_token : string;
  expires_in : Z }.

Record TokenCache := {
  token : string;
  expiresAt : Z }.

(** ** Strings

    Template literals are concatenations; [s.includes(t)] is the
    substring test used to state what a message contains. *)

Fixpoint startsWith (s p : string) {struct p} : bool :=
  match p, s with
  | EmptyString, _ => true
  | String c p', String d s' => if Ascii.eqb c d then startsWith s' p' else false
  | String _ _, EmptyString => false
  end.

Fixpoint includes (s t : string) : bool :=
  startsWith s t ||
  match s with
  | EmptyString => false
  | String _ s' => includes s' t
  end.

(** The double-quote character of the messages that quote a form name. *)
Definition dquote : string := String (ascii_of_nat 34) EmptyString.

(** [a || b] on a possibly undefined string: the empty string is falsy. *)
Definition or_else (a : option string) (b : string) : string :=
  match a with
  | Some s => if String.eqb s EmptyString then b else s
  | None => b
  end.

(** The same with [null] as the last alternative. *)
Definition or_null (a : option string) : option string :=
  match a with
  | Some s => if String.eqb s EmptyString then None else Some s
  | None => None
  end.

(** ** Base64, as [Buffer.from(s).toString('base64')]

    A [string] is the sequence of its UTF-8 bytes. *)

Definition base64_alphabet : string :=
  "ABCDEFGHIJKLMNOPQRSTUVWXYZabcdefghijklmnopqrstuvwxyz0123456789+/".

Definition base64_digit (n : N) : ascii :=
  match String.get (N.to_nat n) base64_alphabet with
  | Some c => c
  | None => "="%char
  end.

Fixpoint base64_bytes (l : list N) : string :=
  match l with
  | [] => EmptyString
  | [a] =>
      String (base64_digit (N.shiftr a 2))
     (String (base64_digit (N.shiftl (N.land a 3) 4)) "==")
  | [a; b] =>
      String (base64_digit (N.shiftr a 2))
     (String (base64_digit (N.lor (N.shiftl (N.land a 3) 4) (N.shiftr b 4)))
     (String (base64_digit (N.shiftl (N.land b 15) 2)) "="))
  | a :: b :: c :: rest =>
      String (base64_digit (N.shiftr a 2))
     (String (base64_digit (N.lor (N.shiftl (N.land a 3) 4) (N.shiftr b 4)))
     (String (base64_digit (N.lor (N.shiftl (N.land b 15) 2) (N.shiftr c 6)))
     (String (base64_digit (N.land c 63)) (base64_bytes rest))))
  end.

Definition toBase64 (s : string) : string :=
  base64_bytes (map N_of_ascii (list_ascii_of_string s)).

(** ** config.ts *)

Definition buildAuthUrl (envId : string) (tld : RegionTLD) : string :=
  "https://auth.pingone." +:+ tld_string tld +:+ "/" +:+ envId +:+ "/as/token".

Definition buildApiUrl (tld : RegionTLD) : string :=
  "https://api.pingone." +:+ tld_string tld +:+ "/v1".

(** The UUID test of [validateEnvironment]:
    [/^[0-9a-f]{8}-[0-9a-f]{4}-[0-9a-f]{4}-[0-9a-f]{4}-[0-9a-f]{12}$/i]. *)
Definition is_hex (c : ascii) : bool :=
  let n := nat_of_ascii c in
  ((48 <=? n) && (n <=? 57) || (97 <=? n) && (n <=? 102)
   || (65 <=? n) && (n <=? 70))%nat.

Fixpoint hex_run (n : nat) (s : string) : option string :=
  match n with
  | O => Some s
  | S n' =>
      match s with
      | String c s' => if is_hex c then hex_run n' s' else None
      | EmptyString => None
      end
  end.

Definition dash (s : string) : option string :=
  match s with
  | String "-"%char s' => Some s'
  | _ => None
  end.

Definition hex_group (n : nat) (rest : option string) : option string :=
  match rest with
  | Some s => hex_run n s
  | None => None
  end.

Definition then_dash (rest : option string) : option string :=
  match rest with
  | Some s => dash s
  | None => None
  end.

Definition uuidRegex_test (s : string) : bool :=
  match hex_group 12 (then_dash (hex_group 4 (then_dash (hex_group 4
         (then_dash (hex_group 4 (then_dash (hex_run 8 s)))))))) with
  | Some EmptyString => true
  | _ => false
  end.

(** ** The values the code exchanges with axios

    A JSON object of type [any] is read through the properties the code
    touches; [props] holds its remaining own properties (key and
    serialised value). *)

Module FormObject.
Record t := mk {
  id : string;
  name : string;
  description : option string;
  props : list (string * string) }.
End FormObject.
Abbreviation FormObject := FormObject.t.

Module Json.
Record t := mk {
  _embedded_forms : option (list FormObject);  (* data._embedded?.forms *)
  _links_next_href : option string;            (* data._links?.next?.href *)
  message : option string;                     (* data.message *)
  error_description : option string;           (* data.error_description *)
  name : option string;                        (* data.name *)
  props : list (string * string) }.
End Json.
Abbreviation Json := Json.t.

Inductive Method := GET | POST.

Inductive Body := NoBody | Text (s : string) | Object (j : Json).

(** An axios request configuration, with the [_retryCount] property the
    retry interceptor attaches to it. *)
Record RequestConfig := {
  method : Method;
  baseURL : option string;
  url : string;
  headers : list (string * string);
  data : Body;
  timeout : Z;
  _retryCount : option nat }.

Record Response (D : Type) := {
  status : Z;
  body : D }.
Arguments status {D} _.
Arguments body {D} _.

(** What a [catch] clause can receive: an [AxiosError] ([error.message],
    [error.config], [error.response], whose data may be missing) or any
    other [Error]. *)
Inductive Thrown :=
| AxiosError (message : string) (config : option RequestConfig)
             (response : option (Response (option Json)))
| Error (message : string).

(** [error instanceof Error ? error.message : ...]: both kinds are
    [Error]s. *)
Definition error_message (e : Thrown) : string :=
  match e with
  | AxiosError m _ _ => m
  | Error m => m
  end.

(** How a request ends, as axios reports it: resolved with a response
    (a status accepted by [validateStatus]), rejected with an
    [AxiosError] carrying the response (any other status), rejected with
    an [AxiosError] carrying no response (network failure, timeout), or
    an exception that is not an [AxiosError]. *)
Inductive Wire (D : Type) :=
| Resolved (r : Response D)
| BadStatus (r : Response (option Json))
| NoResponse (message : string)
| Crash (message : string).
Arguments Resolved {D} _.
Arguments BadStatus {D} _.
Arguments NoResponse {D} _.
Arguments Crash {D} _.

(** A reply and the milliseconds that pass until it arrives. *)
Record Reply (D : Type) := {
  wire : Wire D;
  elapsed : Z }.
Arguments wire {D} _.
Arguments elapsed {D} _.

(** The remote platform: the token endpoint, reached through the global
    [axios], and the REST API, reached through the client instances.
    Each answers a request knowing the requests sent before it. *)
Record Platform := {
  auth_server : list RequestConfig -> RequestConfig -> Reply TokenResponse;
  api_server : list RequestConfig -> RequestConfig -> Reply Json }.

(** ** The world and the promise monad *)

Record World := {
  tokenCache : gmap string TokenCache;   (* const tokenCache = new Map() *)
  now : Z;                               (* Date.now() *)
  sent : list RequestConfig;             (* requests put on the wire *)
  timers : list Z }.                     (* delays passed to setTimeout *)

(** [Pending]: the promise has not settled within the step budget. *)
Inductive Result (A : Type) :=
| Return (a : A)
| Throw (e : Thrown)
| Pending.
Arguments Return {A} _.
Arguments Throw {A} _.
Arguments Pending {A}.

Definition Promise (A : Type) : Type := World -> Result A * World.

Definition ret {A} (a : A) : Promise A := fun w => (Return a, w).

Definition throw {A} (e : Thrown) : Promise A := fun w => (Throw e, w).

Definition bind {A B} (m : Promise A) (k : A -> Promise B) : Promise B :=
  fun w =>
    match m w with
    | (Return a, w') => k a w'
    | (Throw e, w') => (Throw e, w')
    | (Pending, w') => (Pending, w')
    end.

Definition try_catch {A} (m : Promise A) (handler : Thrown -> Promise A)
  : Promise A :=
  fun w =>
    match m w with
    | (Throw e, w') => handler e w'
    | r => r
    end.

Declare Scope promise_scope.
Delimit Scope promise_scope with promise.
Notation "x <- m ;; k" := (bind m (fun x => k))
  (at level 100, m at next level, right associativity) : promise_scope.
Notation "m ;;; k" := (bind m (fun _ => k))
  (at level 100, right associativity) : promise_scope.
Local Open Scope promise_scope.

(** The three ways the code changes the world. *)
Definition cache_stored (w : World) (key : string) (entry : TokenCache) : World :=
  {| tokenCache := <[key := entry]> (tokenCache w);
     now := now w; sent := sent w; timers := timers w |}.

Definition request_sent (w : World) (config : RequestConfig) (ms : Z) : World :=
  {| tokenCache := tokenCache w; now := now w + ms;
     sent := sent w ++ [config]; timers := timers w |}.

Definition timer_elapsed (w : World) (delay : Z) : World :=
  {| tokenCache := tokenCache w; now := now w + delay;
     sent := sent w; timers := timers w ++ [delay] |}.

Definition Date_now : Promise Z := fun w => (Return (now w), w).

Definition tokenCache_get (key : string) : Promise (option TokenCache) :=
  fun w => (Return (tokenCache w !! key), w).

Definition tokenCache_set (key : string) (entry : TokenCache) : Promise unit :=
  fun w => (Return tt, cache_stored w key entry).

(** [await new Promise((resolve) => setTimeout(resolve, delay))]. *)
Definition setTimeout (delay : Z) : Promise unit :=
  fun w => (Return tt, timer_elapsed w delay).

(** axios turns the end of a request into a resolved or rejected
    promise; the error carries the configuration of its request. *)
Definition settle {D} (config : RequestConfig) (r : Wire D)
  : Result (Response D) :=
  match r with
  | Resolved resp => Return resp
  | BadStatus resp =>
      Throw (AxiosError
               ("Request failed with status code " +:+ pretty (status resp))
               (Some config) (Some resp))
  | NoResponse m => Throw (AxiosError m (Some config) None)
  | Crash m => Throw (Error m)
  end.

Definition dispatch {D}
    (server : list RequestConfig -> RequestConfig -> Reply D)
    (config : RequestConfig) : Promise (Response D) :=
  fun w =>
    let reply := server (sent w) config in
    (settle config (wire reply), request_sent w config (elapsed reply)).

(** ** auth.ts *)

Definition cacheKey (env : EnvConfig) : string :=
  EnvConfig.envId env +:+ ":" +:+ EnvConfig.clientId env.

(** [cached && cached.expiresAt > Date.now() + 30000] *)
Definition fresh (cached : option TokenCache) (now : Z) : bool :=
  match cached with
  | Some c => (expiresAt c >? now + 30000)%Z
  | None => false
  end.

(** The configuration of the [axios.post] call. *)
Definition tokenRequest (env : EnvConfig) : RequestConfig :=
  let authUrl := buildAuthUrl (EnvConfig.envId env) (EnvConfig.tld env) in
  let credentials :=
    toBase64 (EnvConfig.clientId env +:+ ":" +:+ EnvConfig.clientSecret env) in
  {| method := POST;
     baseURL := None;
     url := authUrl;
     headers := [("Authorization", "Basic " +:+ credentials);
                 ("Content-Type", "application/x-www-form-urlencoded")];
     data := Text "grant_type=client_credentials";
     timeout := 10000;
     _retryCount := None |}.

(** [error.response?.status] *)
Definition response_status (response : option (Response (option Json)))
  : option Z :=
  match response with
  | Some r => Some (status r)
  | None => None
  end.

(** [status === n] for a possibly undefined [status]. *)
Definition status_is (status : option Z) (n : Z) : bool :=
  match status with
  | Some s => (s =? n)%Z
  | None => false
  end.

(** [error.response?.data?.error_description] *)
Definition response_error_description
    (response : option (Response (option Json))) : option string :=
  match response with
  | Some {| body := Some d |} => Json.error_description d
  | _ => None
  end.

(** [error.response?.data?.message] *)
Definition response_message (response : option (Response (option Json)))
  : option string :=
  match response with
  | Some {| body := Some d |} => Json.message d
  | _ => None
  end.

Definition getAccessToken_catch (env : EnvConfig) (error : Thrown)
  : Promise string :=
  match error with
  | AxiosError error_message _ response =>
      let status := response_status response in
      let message :=
        or_else (response_error_description response) error_message in
      if status_is status 401 then
        throw (Error ("Authentication failed for " +:+ EnvConfig.name env
                        +:+ ": Invalid client credentials"))
      else if status_is status 403 then
        throw (Error ("Access denied for " +:+ EnvConfig.name env
                        +:+ ": Insufficient permissions"))
      else
        throw (Error ("Failed to authenticate with " +:+ EnvConfig.name env
                        +:+ ": " +:+ message))
  | Error _ =>
      throw (Error ("Network error while authenticating with "
                    +:+ EnvConfig.name env))
  end.

(** The [try] block and its [catch] clause: one token request. *)
Definition tokenExchange (net : Platform) (env : EnvConfig) : Promise string :=
  let cacheKey := cacheKey env in
  try_catch
    (response <- dispatch (auth_server net) (tokenRequest env) ;;
     let access_token := access_token (body response) in
     let expires_in := expires_in (body response) in
     now1 <- Date_now ;;
     let expiresAt := now1 + expires_in * 1000 in
     tokenCache_set cacheKey {| token := access_token; expiresAt := expiresAt |} ;;;
     ret access_token)
    (getAccessToken_catch env).

Definition getAccessToken (net : Platform) (env : EnvConfig) : Promise string :=
  let cacheKey := cacheKey env in
  cached <- tokenCache_get cacheKey ;;
  match cached with
  | Some c =>
      now0 <- Date_now ;;
      if (expiresAt c >? now0 + 30000)%Z then ret (token c)
      else tokenExchange net env
  | None => tokenExchange net env
  end.

(** ** api.ts *)

Definition MAX_RETRIES : nat := 3.
Definition BASE_DELAY : Z := 1000.

(** What [axios.create] fixes for every request of the client. *)
Record Client := {
  defaults_baseURL : string;
  defaults_headers : list (string * string);
  defaults_timeout : Z }.

Definition set_retryCount (config : RequestConfig) (n : nat) : RequestConfig :=
  {| method := method config; baseURL := baseURL config; url := url config;
     headers := headers config; data := data config;
     timeout := timeout config; _retryCount := Some n |}.

(** [error.response?.status === 429 ||
     (error.response?.status && error.response.status >= 500)] *)
Definition retryable_status (response : option (Response (option Json)))
  : bool :=
  match response_status response with
  | Some s => ((s =? 429) || (negb (s =? 0) && (s >=? 500)))%Z
  | None => false
  end.

(** The rejection handler given to [client.interceptors.response.use].
    [client] is the instance the handler closes over.  The counter is
    written into the configuration object the error refers to, so the
    error that is rejected carries it too. *)
Definition interceptor (client : RequestConfig -> Promise (Response Json))
    (error : Thrown) : Promise (Response Json) :=
  match error with
  | AxiosError message (Some config) response =>
      let retryCount := default 0%nat (_retryCount config) in
      let config := set_retryCount config retryCount in
      let shouldRetry :=
        retryable_status response && (retryCount <? MAX_RETRIES)%nat in
      if shouldRetry then
        let retryCount := S retryCount in
        let config := set_retryCount config retryCount in
        let delay := BASE_DELAY * 2 ^ (Z.of_nat retryCount - 1) in
        setTimeout delay ;;;
        client config
      else throw (AxiosError message (Some config) response)
  | _ => throw error
  end.

(** [client(config)]: the request goes out and a failure is handed to
    the interceptor, which may call the client again. *)
Fixpoint client_call (net : Platform) (fuel : nat) (config : RequestConfig)
  : Promise (Response Json) :=
  match fuel with
  | O => fun w => (Pending, w)
  | S fuel' =>
      try_catch (dispatch (api_server net) config)
                (interceptor (client_call net fuel'))
  end.

(** No request is resubmitted more than [MAX_RETRIES] times, so this
    budget is never used up (see [client_call_settles]). *)
Definition client_fuel : nat := S MAX_RETRIES.

Definition client_config (client : Client) (m : Method) (url : string)
    (data : Body) : RequestConfig :=
  {| method := m;
     baseURL := Some (defaults_baseURL client);
     url := url;
     headers := defaults_headers client;
     data := data;
     timeout := defaults_timeout client;
     _retryCount := None |}.

Definition client_get (net : Platform) (client : Client) (url : string)
  : Promise (Response Json) :=
  client_call net client_fuel (client_config client GET url NoBody).

Definition client_post (net : Platform) (client : Client) (url : string)
    (data : Json) : Promise (Response Json) :=
  client_call net client_fuel (client_config client POST url (Object data)).

Definition createApiClient (net : Platform) (env : EnvConfig) : Promise Client :=
  let baseURL := buildApiUrl (EnvConfig.tld env) in
  token <- getAccessToken net env ;;
  ret {| defaults_baseURL := baseURL;
         defaults_headers := [("Authorization", "Bearer " +:+ token);
                              ("Content-Type", "application/json")];
         defaults_timeout := 30000 |}.

(** [`${x}`] for a possibly undefined [x]. *)
Definition template (x : option string) : string :=
  default "undefined" x.

Definition summary (form : FormObject) : FormSummary :=
  {| FormSummary.id := FormObject.id form;
     FormSummary.name := FormObject.name form;
     FormSummary.description := FormObject.description form |}.

Definition listForms_catch (env : EnvConfig) (error : Thrown)
  : Promise (list FormSummary) :=
  match error with
  | AxiosError error_message _ response =>
      let status := response_status response in
      let message := or_else (response_message response) error_message in
      if status_is status 401 then
        throw (Error ("Authentication failed for " +:+ EnvConfig.name env
                        +:+ ": Token may have expired"))
      else if status_is status 403 then
        throw (Error ("Access denied for " +:+ EnvConfig.name env
                        +:+ ": Insufficient permissions to list forms"))
      else if status_is status 404 then
        throw (Error ("Forms endpoint not found for " +:+ EnvConfig.name env))
      else
        throw (Error ("API error for " +:+ EnvConfig.name env +:+ ": "
                        +:+ message))
  | Error _ =>
      throw (Error ("Network error while fetching forms from "
                    +:+ EnvConfig.name env))
  end.

Definition downloadForm_catch (env : EnvConfig) (formId : string)
    (error : Thrown) : Promise Json :=
  match error with
  | AxiosError error_message _ response =>
      let status := response_status response in
      let message := or_else (response_message response) error_message in
      if status_is status 401 then
        throw (Error ("Authentication failed for " +:+ EnvConfig.name env
                        +:+ ": Token may have expired"))
      else if status_is status 403 then
        throw (Error ("Access denied for " +:+ EnvConfig.name env
                        +:+ ": Insufficient permissions to download form "
                        +:+ formId))
      else if status_is status 404 then
        throw (Error ("Form " +:+ formId +:+ " not found in "
                        +:+ EnvConfig.name env))
      else
        throw (Error ("API error downloading form " +:+ formId +:+ " from "
                        +:+ EnvConfig.name env +:+ ": " +:+ message))
  | Error _ =>
      throw (Error ("Network error while downloading form " +:+ formId
                    +:+ " from " +:+ EnvConfig.name env))
  end.

Definition downloadForm (net : Platform) (env : EnvConfig) (formId : string)
  : Promise Json :=
  try_catch
    (client <- createApiClient net env ;;
     let url := "/environments/" +:+ EnvConfig.envId env +:+ "/forms/"
                +:+ formId in
     response <- client_get net client url ;;
     ret (body response))
    (downloadForm_catch env formId).

Definition uploadForm_catch (env : EnvConfig) (formData : Json)
    (error : Thrown) : Promise Json :=
  let formData_name := template (Json.name formData) in
  match error with
  | AxiosError error_message _ response =>
      let status := response_status response in
      let message := or_else (response_message response) error_message in
      if status_is status 401 then
        throw (Error ("Authentication failed for " +:+ EnvConfig.name env
                        +:+ ": Token may have expired"))
      else if status_is status 403 then
        throw (Error ("Access denied for " +:+ EnvConfig.name env
                        +:+ ": Insufficient permissions to upload forms"))
      else if status_is status 400 then
        throw (Error ("Invalid form data for " +:+ dquote +:+ formData_name
                        +:+ dquote +:+ ": " +:+ message))
      else if status_is status 409 then
        throw (Error ("Form " +:+ dquote +:+ formData_name +:+ dquote
                        +:+ " already exists in " +:+ EnvConfig.name env
                        +:+ " or there's a conflict"))
      else
        throw (Error ("API error uploading form " +:+ dquote
                        +:+ formData_name +:+ dquote +:+ " to "
                        +:+ EnvConfig.name env +:+ ": " +:+ message))
  | Error _ =>
      throw (Error ("Network error while uploading form " +:+ dquote
                    +:+ formData_name +:+ dquote +:+ " to "
                    +:+ EnvConfig.name env))
  end.

Definition uploadForm (net : Platform) (env : EnvConfig) (formData : Json)
  : Promise Json :=
  try_catch
    (client <- createApiClient net env ;;
     let url := "/environments/" +:+ EnvConfig.envId env +:+ "/forms" in
     response <- client_post net client url formData ;;
     ret (body response))
    (uploadForm_catch env formData).

(** [forms.sort(compare)]: the sort is stable, so for a consistent
    comparator its result is the one of insertion from the right. *)
Section Sort.
Context {A : Type} (compare : A -> A -> Z).

Fixpoint sort_insert (x : A) (l : list A) : list A :=
  match l with
  | [] => [x]
  | y :: l' => if (compare x y <=? 0)%Z then x :: y :: l'
               else y :: sort_insert x l'
  end.

Definition Array_sort (l : list A) : list A :=
  foldr sort_insert [] l.
End Sort.

Section ListForms.
(** The platform's string collation, [a.localeCompare(b)], and the
    [pathname] and [search] of [new URL(url)], which throws a
    [TypeError] on a string that is no URL. *)
Variable localeCompare : string -> string -> Z.
Variable URL : string -> option (string * string).

(** One turn of [while (url)]; [url] is [null] or a string, and the
    empty string is falsy. *)
Fixpoint listForms_loop (net : Platform) (client : Client) (fuel : nat)
    (forms : list FormSummary) (url : option string)
  : Promise (list FormSummary) :=
  match or_null url with
  | None => ret forms
  | Some url =>
      match fuel with
      | O => fun w => (Pending, w)
      | S fuel' =>
          response <- client_get net client url ;;
          let data := body response in
          let forms :=
            match Json._embedded_forms data with
            | Some pageForms => (forms ++ map summary pageForms)%list
            | None => forms
            end in
          let url := or_null (Json._links_next_href data) in
          match url with
          | Some href =>
              if startsWith href "http" then
                match URL href with
                | Some (pathname, search) =>
                    listForms_loop net client fuel' forms
                                   (Some (pathname +:+ search))
                | None => throw (Error "Invalid URL")
                end
              else listForms_loop net client fuel' forms (Some href)
          | None => listForms_loop net client fuel' forms None
          end
      end
  end.

Definition byName (a b : FormSummary) : Z :=
  localeCompare (FormSummary.name a) (FormSummary.name b).

Definition listForms (net : Platform) (fuel : nat) (env : EnvConfig)
  : Promise (list FormSummary) :=
  try_catch
    (client <- createApiClient net env ;;
     let url := "/environments/" +:+ EnvConfig.envId env +:+ "/forms" in
     forms <- listForms_loop net client fuel [] (Some url) ;;
     ret (Array_sort byName forms))
    (listForms_catch env).
End ListForms.

(** ** forms.ts *)

Definition removedFields : list string :=
  ["_links"; "id"; "environment"; "created"; "modified"].

(** A shallow copy without the fields that are not exported. *)
Definition transformFormForExport (formData : Json) : Json :=
  {| Json._embedded_forms := Json._embedded_forms formData;
     Json._links_next_href := None;
     Json.message := Json.message formData;
     Json.error_description := Json.error_description formData;
     Json.name := Json.name formData;
     Json.props :=
       filter (fun kv => negb (existsb (String.eqb (fst kv)) removedFields))
              (Json.props formData) |}.

(** [{ ...formData, name: formName }] *)
Definition with_name (formData : Json) (formName : string) : Json :=
  {| Json._embedded_forms := Json._embedded_forms formData;
     Json._links_next_href := Json._links_next_href formData;
     Json.message := Json.message formData;
     Json.error_description := Json.error_description formData;
     Json.name := Some formName;
     Json.props := Json.props formData |}.

Record Failure := {
  failure_filename : string;
  failure_error : string }.

Record UploadResult := {
  successful : list string;
  failed : list Failure }.

Section Forms.
(** The collaborators of [forms.ts]: the file system ([fsio.ts], with
    the overwrite prompt it is handed) and the prompts ([ui.ts]), and
    the file-name sanitiser
    [name.replace(/[^a-zA-Z0-9\s-_]/g, '').replace(/\s+/g, '-').toLowerCase()]. *)
Variable saveFormToFile : Json -> string -> Promise string.
Variable loadFormFromFile : string -> Promise Json.
Variable promptForMultipleFormNames :
  list (LocalFormFile * Json) -> Promise (gmap string string).
Variable sanitize : string -> string.

(** The body of the [for] loop of [downloadForms] for one form. *)
Definition downloadForms_step (net : Platform) (env : EnvConfig)
    (form : FormSummary) (downloadedFiles : list string)
  : Promise (list string) :=
  try_catch
    (rawFormData <- downloadForm net env (FormSummary.id form) ;;
     let cleanedFormData := transformFormForExport rawFormData in
     let sanitizedName := sanitize (FormSummary.name form) in
     let filename := sanitizedName +:+ ".json" in
     filePath <- saveFormToFile cleanedFormData filename ;;
     if String.eqb filePath EmptyString then ret downloadedFiles
     else ret (downloadedFiles ++ [filePath])%list)
    (fun error =>
       throw (Error ("Failed to download form " +:+ dquote
                     +:+ FormSummary.name form +:+ dquote +:+ " ("
                     +:+ FormSummary.id form +:+ "): "
                     +:+ error_message error))).

Fixpoint downloadForms_loop (net : Platform) (env : EnvConfig)
    (forms : list FormSummary) (downloadedFiles : list string)
  : Promise (list string) :=
  match forms with
  | [] => ret downloadedFiles
  | form :: rest =>
      downloadedFiles <- downloadForms_step net env form downloadedFiles ;;
      downloadForms_loop net env rest downloadedFiles
  end.

Definition downloadForms (net : Platform) (env : EnvConfig)
    (forms : list FormSummary) : Promise (list string) :=
  downloadForms_loop net env forms [].

(** The first loop of [uploadForms]: read every file. *)
Definition load_step (localForm : LocalFormFile)
    (acc : list (LocalFormFile * Json) * list Failure)
  : Promise (list (LocalFormFile * Json) * list Failure) :=
  let '(formsWithData, failed) := acc in
  try_catch
    (formData <- loadFormFromFile (LocalFormFile.filename localForm) ;;
     ret ((formsWithData ++ [(localForm, formData)])%list, failed))
    (fun error =>
       let errorMessage := error_message error in
       ret (formsWithData,
            (failed ++
             [{| failure_filename := LocalFormFile.filename localForm;
                 failure_error := "Failed to load file: "
                                  +:+ errorMessage |}])%list)).

Fixpoint load_loop (localForms : list LocalFormFile)
    (acc : list (LocalFormFile * Json) * list Failure)
  : Promise (list (LocalFormFile * Json) * list Failure) :=
  match localForms with
  | [] => ret acc
  | localForm :: rest =>
      acc <- load_step localForm acc ;;
      load_loop rest acc
  end.

(** The body of the second loop of [uploadForms] for one form. *)
Definition uploadForms_step (net : Platform) (env : EnvConfig)
    (nameMap : gmap string string) (item : LocalFormFile * Json)
    (acc : UploadResult) : Promise UploadResult :=
  let '(localForm, formData) := item in
  let formName :=
    or_else (nameMap !! LocalFormFile.filename localForm)
            (or_else (Json.name formData) (LocalFormFile.name localForm)) in
  try_catch
    (let updatedFormData := with_name formData formName in
     uploadForm net env updatedFormData ;;;
     ret {| successful :=
              (successful acc ++ [LocalFormFile.filename localForm])%list;
            failed := failed acc |})
    (fun error =>
       let errorMessage := error_message error in
       ret {| successful := successful acc;
              failed :=
                (failed acc ++
                 [{| failure_filename := LocalFormFile.filename localForm;
                     failure_error := errorMessage |}])%list |}).

Fixpoint uploadForms_loop (net : Platform) (env : EnvConfig)
    (nameMap : gmap string string)
    (formsWithData : list (LocalFormFile * Json)) (acc : UploadResult)
  : Promise UploadResult :=
  match formsWithData with
  | [] => ret acc
  | item :: rest =>
      acc <- uploadForms_step net env nameMap item acc ;;
      uploadForms_loop net env nameMap rest acc
  end.

Definition uploadForms (net : Platform) (env : EnvConfig)
    (localForms : list LocalFormFile) : Promise UploadResult :=
  loaded <- load_loop localForms ([], []) ;;
  let '(formsWithData, failed) := loaded in
  if (length formsWithData =? 0)%nat then
    ret {| successful := []; failed := failed |}
  else
    nameMap <- promptForMultipleFormNames formsWithData ;;
    uploadForms_loop net env nameMap formsWithData
                     {| successful := []; failed := failed |}.
End Forms.

(** ** config.ts: loading and validating the environments

    A value of type [unknown] is seen through the tests the validation
    makes: whether it is an object at all, and for a property whether it
    is a string. *)

Inductive JsValue :=
| JsString (s : string)
| JsOther.

Inductive Unknown :=
| NotAnObject                               (* !env || typeof env !== 'object' *)
| JsObject (properties : gmap string JsValue).

(** A function that returns or throws an [Error] with a message. *)
Inductive Checked (A : Type) :=
| Accepted (a : A)
| Rejected (message : string).
Arguments Accepted {A} _.
Arguments Rejected {A} _.

Definition requiredFields : list string :=
  ["name"; "envId"; "clientId"; "clientSecret"; "tld"].

Definition VALID_TLDS : list RegionTLD := [com; eu; ca; asia; com_au; sg].

(** [envObj[field]] when it is truthy and a string. *)
Definition string_field (envObj : gmap string JsValue) (field : string)
  : option string :=
  match envObj !! field with
  | Some (JsString s) => if String.eqb s EmptyString then None else Some s
  | _ => None
  end.

(** [!envObj[field] || typeof envObj[field] !== 'string'] *)
Definition field_missing (envObj : gmap string JsValue) (field : string)
  : bool :=
  match string_field envObj field with
  | Some _ => false
  | None => true
  end.

(** [envObj.field as string], once the field is known to be a string. *)
Definition field_string (envObj : gmap string JsValue) (field : string)
  : string :=
  default EmptyString (string_field envObj field).

(** [VALID_TLDS.includes(tld)], with the member found. *)
Definition parse_tld (tld : string) : option RegionTLD :=
  find (fun region => String.eqb tld (tld_string region)) VALID_TLDS.

(** [list.join(', ')] *)
Fixpoint join_comma (l : list string) : string :=
  match l with
  | [] => EmptyString
  | [x] => x
  | x :: rest => x +:+ ", " +:+ join_comma rest
  end.

Definition validateEnvironment (env : Unknown) (index : nat)
  : Checked EnvConfig :=
  match env with
  | NotAnObject =>
      Rejected ("Environment at index " +:+ pretty index
                +:+ " is not a valid object")
  | JsObject envObj =>
      match find (field_missing envObj) requiredFields with
      | Some field =>
          Rejected ("Environment at index " +:+ pretty index
                    +:+ " is missing required field: " +:+ field)
      | None =>
          let tld := field_string envObj "tld" in
          match parse_tld tld with
          | None =>
              Rejected ("Environment at index " +:+ pretty index
                        +:+ " has invalid tld: " +:+ tld
                        +:+ ". Must be one of: "
                        +:+ join_comma (map tld_string VALID_TLDS))
          | Some region =>
              if uuidRegex_test (field_string envObj "envId") then
                Accepted {| EnvConfig.name := field_string envObj "name";
                            EnvConfig.envId := field_string envObj "envId";
                            EnvConfig.clientId :=
                              field_string envObj "clientId";
                            EnvConfig.clientSecret :=
                              field_string envObj "clientSecret";
                            EnvConfig.tld := region |}
              else
                Rejected ("Environment at index " +:+ pretty index
                          +:+ " has invalid envId format. Must be a valid UUID.")
          end
      end
  end.

(** The parsed content of [environments.json]. *)
Inductive Parsed :=
| NotAnArray
| JsArray (items : list Unknown).

(** [environments.map((env, index) => validateEnvironment(env, index))]
    from position [index] on: the first invalid entry throws. *)
Fixpoint validate_from (index : nat) (items : list Unknown)
  : Checked (list EnvConfig) :=
  match items with
  | [] => Accepted []
  | env :: rest =>
      match validateEnvironment env index with
      | Rejected message => Rejected message
      | Accepted config =>
          match validate_from (S index) rest with
          | Rejected message => Rejected message
          | Accepted configs => Accepted (config :: configs)
          end
      end
  end.

Definition validateAndParseEnvironments (environments : Parsed)
  : Checked (list EnvConfig) :=
  match environments with
  | NotAnArray =>
      Rejected "environments.json must contain a JSON array of environment objects"
  | JsArray items => validate_from 0 items
  end.

(** What [loadConfig] finds on disk: no file, a file that cannot be
    read or parsed (with the message of the error), or parsed content. *)
Inductive ConfigFile :=
| NoFile
| Unreadable (message : string)
| Content (environments : Parsed).

Definition loadConfig (file : ConfigFile) : Checked (list EnvConfig) :=
  match file with
  | NoFile =>
      Rejected "Missing environments.json file. Please create one based on environments.example.json"
  | Unreadable message =>
      Rejected ("Error reading environments.json: " +:+ message)
  | Content environments =>
      match validateAndParseEnvironments environments with
      | Accepted configs => Accepted configs
      | Rejected message =>
          Rejected ("Error reading environments.json: " +:+ message)
      end
  end.

(** The object a configuration entry is written as. *)
Definition env_object (env : EnvConfig) : Unknown :=
  JsObject
    (<["name" := JsString (EnvConfig.name env)]>
     (<["envId" := JsString (EnvConfig.envId env)]>
      (<["clientId" := JsString (EnvConfig.clientId env)]>
       (<["clientSecret" := JsString (EnvConfig.clientSecret env)]>
        (<["tld" := JsString (tld_string (EnvConfig.tld env))]> ∅))))).

(** ** fsio.ts: the forms directory

    The directory is what [access], [readdir], [readFile] and
    [JSON.parse] make of it: absent, unreadable, or a list of file names
    with, for each, the content read and parsed or the message of the
    error that reading or parsing raised. *)

Inductive FormsDir :=
| NoDirectory
| ReaddirFails (message : string)
| Directory (files : list string) (content : string -> Checked Json).

(** [s.endsWith(suffix)] *)
Fixpoint endsWith (s suffix : string) : bool :=
  String.eqb s suffix ||
  match s with
  | EmptyString => false
  | String _ s' => endsWith s' suffix
  end.

Fixpoint string_drop (n : nat) (s : string) : string :=
  match n, s with
  | S n', String _ s' => string_drop n' s'
  | _, _ => s
  end.

(** [s.replace(pattern, replacement)] for a string pattern: the first
    occurrence only. *)
Fixpoint replace_first (s pattern replacement : string) : string :=
  if startsWith s pattern
  then replacement +:+ string_drop (String.length pattern) s
  else match s with
       | EmptyString => EmptyString
       | String c s' => String c (replace_first s' pattern replacement)
       end.

(** The entry [scanFormsDir] makes for a file. *)
Definition scan_entry (content : string -> Checked Json) (filename : string)
  : LocalFormFile :=
  let name := replace_first filename ".json" EmptyString in
  match content filename with
  | Accepted _ =>
      {| LocalFormFile.filename := filename; LocalFormFile.name := name;
         LocalFormFile.isValid := true; LocalFormFile.error := None |}
  | Rejected message =>
      {| LocalFormFile.filename := filename; LocalFormFile.name := name;
         LocalFormFile.isValid := false;
         LocalFormFile.error := Some message |}
  end.

Definition byFileName (localeCompare : string -> string -> Z)
    (a b : LocalFormFile) : Z :=
  localeCompare (LocalFormFile.name a) (LocalFormFile.name b).

Definition scanFormsDir (localeCompare : string -> string -> Z)
    (dir : FormsDir) : Checked (list LocalFormFile) :=
  match dir with
  | NoDirectory => Accepted []
  | ReaddirFails message =>
      Rejected ("Failed to scan forms directory: " +:+ message)
  | Directory files content =>
      let jsonFiles := List.filter (fun file => endsWith file ".json") files in
      match jsonFiles with
      | [] => Accepted []
      | _ =>
          let formFiles := map (scan_entry content) jsonFiles in
          Accepted (Array_sort (byFileName localeCompare) formFiles)
      end
  end.


(** ** ui.ts

    [inquirer.prompt] is a parameter: a checkbox prompt gets its choices
    and answers with a selection, an input prompt gets its message and
    default and answers with a string (validated and filtered by
    inquirer with the functions of the question). *)

Section Prompts.
Variable checkbox : list LocalFormFile -> Promise (list LocalFormFile).
Variable input : string -> string -> Promise string.

Definition selectLocalForms (localForms : list LocalFormFile)
  : Promise (list LocalFormFile) :=
  match localForms with
  | [] => ret []
  | _ =>
      let validForms := List.filter LocalFormFile.isValid localForms in
      match validForms with
      | [] => ret []
      | _ => checkbox validForms
      end
  end.

Fixpoint promptForMultipleFormNames_loop
    (formsWithData : list (LocalFormFile * Json))
    (nameMap : gmap string string) : Promise (gmap string string) :=
  match formsWithData with
  | [] => ret nameMap
  | (localForm, formData) :: rest =>
      let currentName :=
        or_else (Json.name formData) (LocalFormFile.name localForm) in
      formName <- input ("Enter name for " +:+ dquote
                         +:+ LocalFormFile.filename localForm +:+ dquote
                         +:+ ":") currentName ;;
      promptForMultipleFormNames_loop rest
        (<[LocalFormFile.filename localForm := formName]> nameMap)
  end.

Definition promptForMultipleFormNames
    (formsWithData : list (LocalFormFile * Json))
  : Promise (gmap string string) :=
  promptForMultipleFormNames_loop formsWithData ∅.
End Prompts.

(** * Vocabulary of the statements *)

(** [config._retryCount || 0] *)
Definition retryCount (config : RequestConfig) : nat :=
  default 0%nat (_retryCount config).

(** The interceptor's retry condition on a response and a counter. *)
Definition retry_condition (r : Response (option Json)) (n : nat) : Prop :=
  (status r = 429 \/ status r >= 500)%Z /\ (n < 3)%nat.

(** The message of [uploadForm] for a rejected payload (status 400). *)
Definition invalid_form_data (formData : Json) (message : string) : string :=
  "Invalid form data for " +:+ dquote +:+ template (Json.name formData)
  +:+ dquote +:+ ": " +:+ message.



(** [compare(a, b) <= 0]: [a] may stand before [b]. *)
Definition ordered {A : Type} (compare : A -> A -> Z) (a b : A) : Prop :=
  (compare a b <= 0)%Z.

(** The summaries a page contributes. *)
Definition page_forms (data : Json) : list FormSummary :=
  match Json._embedded_forms data with
  | Some pageForms => map summary pageForms
  | None => []
  end.

Section Listing.
Variable URL : string -> option (string * string).

(** The URL requested after a page: none when the page has no next
    link, the link itself when it is relative, its path and query when
    it is absolute.  [None] when the link is no URL. *)
Definition next_url (data : Json) : option (option string) :=
  match or_null (Json._links_next_href data) with
  | None => Some None
  | Some href =>
      if startsWith href "http" then
        match URL href with
        | Some (pathname, search) => Some (Some (pathname +:+ search))
        | None => None
        end
      else Some (Some href)
  end.

(** [Listing net client history url pages]: starting at [url], with
    [history] already sent, the platform serves [pages] one after the
    other to the requests made by following the next links, and the
    last page has no next link. *)
Inductive Listing (net : Platform) (client : Client)
  : list RequestConfig -> option string -> list Json -> Prop :=
| Listing_end history url :
    or_null url = None ->
    Listing net client history url []
| Listing_page history url u code data next pages :
    or_null url = Some u ->
    wire (api_server net history (client_config client GET u NoBody))
    = Resolved {| status := code; body := data |} ->
    next_url data = Some next ->
    Listing net client
            (history ++ [client_config client GET u NoBody]) next pages ->
    Listing net client history url (data :: pages).
End Listing.

(** [BASE_DELAY * Math.pow(2, n - 1)]: the wait before resubmission [n]. *)
Definition backoff (n : nat) : Z := (1000 * 2 ^ (Z.of_nat n - 1))%Z.

(** The resubmissions [n + 1], ..., [n + k] of a request: the request
    with nothing changed but its counter. *)
Definition resubmissions (config : RequestConfig) (n k : nat)
  : list RequestConfig :=
  map (set_retryCount config) (seq (S n) k).

(** The client [createApiClient] returns for a token. *)
Definition apiClient (env : EnvConfig) (token : string) : Client :=
  {| defaults_baseURL := buildApiUrl (EnvConfig.tld env);
     defaults_headers := [("Authorization", "Bearer " +:+ token);
                          ("Content-Type", "application/json")];
     defaults_timeout := 30000 |}.

(** What the validation demands of a configuration entry. *)
Definition well_formed (env : EnvConfig) : Prop :=
  EnvConfig.name env <> EmptyString
  /\ uuidRegex_test (EnvConfig.envId env) = true
  /\ EnvConfig.clientId env <> EmptyString
  /\ EnvConfig.clientSecret env <> EmptyString.






(** * Sample inputs *)

Definition devUS : EnvConfig :=
  {| EnvConfig.name := "Dev US";
     EnvConfig.envId := "11111111-2222-3333-4444-555555555555";
     EnvConfig.clientId := "aaaaaaaa-bbbb-cccc-dddd-eeeeeeeeeeee";
     EnvConfig.clientSecret := "s3cret";
     EnvConfig.tld := com |}.

(** A second configuration entry for the same tenant and client. *)
Definition devUS_alias : EnvConfig :=
  {| EnvConfig.name := "Development (alias)";
     EnvConfig.envId := "11111111-2222-3333-4444-555555555555";
     EnvConfig.clientId := "aaaaaaaa-bbbb-cccc-dddd-eeeeeeeeeeee";
     EnvConfig.clientSecret := "another-secret";
     EnvConfig.tld := eu |}.

(** A process that has just started. *)
Definition world0 : World :=
  {| tokenCache := ∅; now := 1700000000000; sent := []; timers := [] |}.

(** The same process holding a token that expires in a minute. *)
Definition world_cached : World :=
  {| tokenCache := {[ cacheKey devUS :=
                       {| token := "tok-0"; expiresAt := 1700000060000 |} ]};
     now := 1700000000000; sent := []; timers := [] |}.


Definition token_reply : Reply TokenResponse :=
  {| wire := Resolved {| status := 200;
                         body := {| access_token := "tok-1";
                                    expires_in := 3600 |} |};
     elapsed := 120 |}.

(** The API answers every request with the given status and no body. *)
Definition api_status (s : Z) : Reply Json :=
  {| wire := BadStatus {| status := s; body := None |}; elapsed := 50 |}.

(** The network is down: no request gets a response. *)
Definition offline : Platform :=
  {| auth_server := fun _ _ =>
       {| wire := NoResponse "Network Error"; elapsed := 3 |};
     api_server := fun _ _ =>
       {| wire := NoResponse "Network Error"; elapsed := 3 |} |}.

(** Tokens are issued; the API answers every request with [s]. *)
Definition always (s : Z) : Platform :=
  {| auth_server := fun _ _ => token_reply;
     api_server := fun _ _ => api_status s |}.

(** The token endpoint rejects the client. *)
Definition unauthorized : Platform :=
  {| auth_server := fun _ _ =>
       {| wire := BadStatus {| status := 401; body := None |}; elapsed := 80 |};
     api_server := fun _ _ => api_status 401 |}.

Definition login_form : Json :=
  {| Json._embedded_forms := None; Json._links_next_href := None;
     Json.message := None; Json.error_description := None;
     Json.name := Some "Login"; Json.props := [("category", "CUSTOM")] |}.

(** The configuration of a first [GET /forms] of a client for [devUS]. *)
Definition sample_get : RequestConfig :=
  {| method := GET; baseURL := Some (buildApiUrl com);
     url := "/environments/11111111-2222-3333-4444-555555555555/forms";
     headers := [("Authorization", "Bearer tok-1");
                 ("Content-Type", "application/json")];
     data := NoBody; timeout := 30000; _retryCount := None |}.

(** The API is rate limited for the first [k] requests it sees. *)
Definition throttled (k : nat) : Platform :=
  {| auth_server := fun _ _ => token_reply;
     api_server := fun history _ =>
       if (length history <? k)%nat then api_status 429
       else {| wire := Resolved {| status := 200; body := login_form |};
               elapsed := 50 |} |}.

(** A collation for the examples: byte-wise comparison. *)
Definition bytewise (a b : string) : Z :=
  match String.compare a b with
  | Eq => 0
  | Lt => -1
  | Gt => 1
  end.

(** A URL parser for the examples: scheme, authority, path, query. *)
Fixpoint after_scheme (s : string) : option string :=
  match s with
  | String ":" (String "/" (String "/" rest)) => Some rest
  | String _ s' => after_scheme s'
  | EmptyString => None
  end.

Fixpoint span (stop : ascii -> bool) (s : string) : string * string :=
  match s with
  | EmptyString => (EmptyString, EmptyString)
  | String c s' =>
      if stop c then (EmptyString, s)
      else let '(a, b) := span stop s' in (String c a, b)
  end.

Definition is_one_of (stops : string) (c : ascii) : bool :=
  existsb (Ascii.eqb c) (list_ascii_of_string stops).

Definition sample_URL (s : string) : option (string * string) :=
  match after_scheme s with
  | None => None
  | Some rest =>
      let '(_, from_path) := span (is_one_of "/?#") rest in
      let '(path, from_query) := span (is_one_of "?#") from_path in
      let '(query, _) := span (is_one_of "#") from_query in
      Some (if String.eqb path EmptyString then "/" else path,
            if String.eqb query "?" then EmptyString else query)
  end.

Definition form_object (id name : string) : FormObject :=
  {| FormObject.id := id; FormObject.name := name;
     FormObject.description := None;
     FormObject.props := [("category", "CUSTOM")] |}.

Definition page (forms : list FormObject) (next : option string) : Json :=
  {| Json._embedded_forms := Some forms;
     Json._links_next_href := next;
     Json.message := None; Json.error_description := None;
     Json.name := None; Json.props := [] |}.

Definition served (data : Json) : Reply Json :=
  {| wire := Resolved {| status := 200; body := data |}; elapsed := 40 |}.

(** A listing of five forms in three pages; the first next link is
    absolute, the second relative. *)
Definition page1 : Json :=
  page [form_object "f-2" "Login"; form_object "f-1" "Billing"]
       (Some "https://api.pingone.com/v1/environments/11111111-2222-3333-4444-555555555555/forms?cursor=2").

Definition page2 : Json :=
  page [form_object "f-5" "Signup"; form_object "f-3" "Consent"]
       (Some "/environments/11111111-2222-3333-4444-555555555555/forms?cursor=3").

Definition page3 : Json :=
  page [form_object "f-4" "Profile"] None.

Definition paged : Platform :=
  {| auth_server := fun _ _ => token_reply;
     api_server := fun _ config =>
       if String.eqb (url config)
            "/environments/11111111-2222-3333-4444-555555555555/forms"
       then served page1
       else if String.eqb (url config)
            "/v1/environments/11111111-2222-3333-4444-555555555555/forms?cursor=2"
       then served page2
       else if String.eqb (url config)
            "/environments/11111111-2222-3333-4444-555555555555/forms?cursor=3"
       then served page3
       else api_status 404 |}.

(** The client [createApiClient] builds for [devUS] with token [tok-1]. *)
Definition devUS_client : Client :=
  {| defaults_baseURL := buildApiUrl com;
     defaults_headers := [("Authorization", "Bearer tok-1");
                          ("Content-Type", "application/json")];
     defaults_timeout := 30000 |}.


Definition sample_load (filename : string) : Promise Json :=
  if String.eqb filename "broken.json"
  then throw (Error "Failed to load form from file broken.json: Unexpected end of JSON input")
  else ret login_form.


Definition sample_sanitize (name : string) : string := name.

Definition local_file (filename name : string) : LocalFormFile :=
  {| LocalFormFile.filename := filename; LocalFormFile.name := name;
     LocalFormFile.isValid := true; LocalFormFile.error := None |}.

Definition form_f1 : FormSummary :=
  {| FormSummary.id := "f-1"; FormSummary.name := "Login";
     FormSummary.description := None |}.

Definition form_f2 : FormSummary :=
  {| FormSummary.id := "f-2"; FormSummary.name := "Billing";
     FormSummary.description := None |}.

(** Form [f-1] does not exist; every other request is served. *)
Definition missing_f1 : Platform :=
  {| auth_server := fun _ _ => token_reply;
     api_server := fun _ config =>
       if includes (url config) "/forms/f-1" then api_status 404
       else served login_form |}.


(** A 400 whose body explains itself. *)
Definition invalid_client : Platform :=
  {| auth_server := fun _ _ =>
       {| wire := BadStatus
            {| status := 400;
               body := Some {| Json._embedded_forms := None;
                               Json._links_next_href := None;
                               Json.message := None;
                               Json.error_description :=
                                 Some "Unsupported grant type";
                               Json.name := None; Json.props := [] |} |};
          elapsed := 10 |};
     api_server := fun _ _ => api_status 401 |}.

(** The European environment of the same customer: another tenant. *)
Definition devUS_eu : EnvConfig :=
  {| EnvConfig.name := "Dev EU";
     EnvConfig.envId := "99999999-8888-7777-6666-555555555555";
     EnvConfig.clientId := "aaaaaaaa-bbbb-cccc-dddd-eeeeeeeeeeee";
     EnvConfig.clientSecret := "s3cret";
     EnvConfig.tld := eu |}.

(** The API finds every payload invalid and says why. *)
Definition rejects_payload : Platform :=
  {| auth_server := fun _ _ => token_reply;
     api_server := fun _ _ =>
       {| wire := BadStatus
            {| status := 400;
               body := Some {| Json._embedded_forms := None;
                               Json._links_next_href := None;
                               Json.message := Some "name must not be blank";
                               Json.error_description := None;
                               Json.name := None; Json.props := [] |} |};
          elapsed := 30 |} |}.

(** The API serves the same body to every request. *)
Definition always_serves (data : Json) : Platform :=
  {| auth_server := fun _ _ => token_reply;
     api_server := fun _ _ => served data |}.

(** A save in which the user declines to overwrite [Billing.json]. *)
Definition keep_billing (formData : Json) (filename : string)
  : Promise string :=
  if String.eqb filename "Billing.json" then ret EmptyString
  else ret ("forms/" +:+ filename).

(** A forms directory with a backup file and a file that does not
    parse. *)
Definition sample_dir : FormsDir :=
  Directory ["signup.json"; "notes.txt"; "broken.json"; "login.json"]
    (fun filename =>
       if String.eqb filename "broken.json"
       then Rejected "Unexpected end of JSON input"
       else Accepted login_form).

(** A user who ticks every choice, and one who accepts every default. *)
Definition select_all (choices : list LocalFormFile)
  : Promise (list LocalFormFile) :=
  ret choices.


Definition invalid_file (filename name : string) : LocalFormFile :=
  {| LocalFormFile.filename := filename; LocalFormFile.name := name;
     LocalFormFile.isValid := false;
     LocalFormFile.error := Some "Unexpected end of JSON input" |}.


(** * Properties *)

(** ** Strings *)

Lemma append_cons (c : ascii) (a b : string) :
  String c a +:+ b = String c (a +:+ b).
Proof. reflexivity. Qed.

Lemma append_empty (b : string) : EmptyString +:+ b = b.
Proof. reflexivity. Qed.

Lemma append_empty_r (a : string) : a +:+ EmptyString = a.
Proof. induction a as [|c a IH]; [reflexivity|]. now rewrite append_cons, IH. Qed.

Lemma startsWith_app (p s : string) : startsWith (p +:+ s) p = true.
Proof.
  induction p as [|c p IH]; [reflexivity|].
  rewrite append_cons. simpl. now rewrite Ascii.eqb_refl.
Qed.

Lemma startsWith_spec (s p : string) :
  startsWith s p = true <-> exists b, s = p +:+ b.
Proof.
  split.
  - revert s. induction p as [|c p IH]; intros s H.
    + now exists s.
    + destruct s as [|d s]; simpl in H; [discriminate|].
      destruct (Ascii.eqb_spec c d) as [->|]; [|discriminate].
      destruct (IH _ H) as [b ->]. now exists b.
  - intros [b ->]. apply startsWith_app.
Qed.

Lemma includes_here (s t : string) : startsWith s t = true -> includes s t = true.
Proof. intros H. destruct s; simpl; simpl in H; now rewrite H. Qed.

Lemma includes_prefix (t b : string) : includes (t +:+ b) t = true.
Proof. apply includes_here, startsWith_app. Qed.

Lemma includes_refl (t : string) : includes t t = true.
Proof.
  apply includes_here, startsWith_spec. exists EmptyString.
  now rewrite append_empty_r.
Qed.

Lemma includes_skip (a s t : string) :
  includes s t = true -> includes (a +:+ s) t = true.
Proof.
  intros H. induction a as [|c a IH]; [assumption|].
  rewrite append_cons. simpl. rewrite IH. apply orb_true_r.
Qed.

(** [includes] is the substring relation. *)
Lemma includes_spec (s t : string) :
  includes s t = true <-> exists a b, s = a +:+ t +:+ b.
Proof.
  split.
  - induction s as [|c s IH]; simpl; intros H.
    + apply orb_true_iff in H as [H|H]; [|discriminate].
      apply startsWith_spec in H as [b ->]. now exists EmptyString, b.
    + apply orb_true_iff in H as [H|H].
      * apply startsWith_spec in H as [b Hb]. exists EmptyString, b. exact Hb.
      * destruct (IH H) as (a & b & ->). now exists (String c a), b.
  - intros (a & b & ->). apply includes_skip, includes_prefix.
Qed.

Ltac includes :=
  repeat first [ apply includes_refl | apply includes_prefix
               | apply includes_skip ].

(** ** Running promises *)

Lemma bind_Return {A B} (m : Promise A) (k : A -> Promise B) w a w' :
  m w = (Return a, w') -> bind m k w = k a w'.
Proof. unfold bind. now intros ->. Qed.

Lemma bind_Throw {A B} (m : Promise A) (k : A -> Promise B) w e w' :
  m w = (Throw e, w') -> bind m k w = (Throw e, w').
Proof. unfold bind. now intros ->. Qed.

Lemma try_catch_Return {A} (m : Promise A) h w a w' :
  m w = (Return a, w') -> try_catch m h w = (Return a, w').
Proof. unfold try_catch. now intros ->. Qed.

Lemma try_catch_Throw {A} (m : Promise A) h w e w' :
  m w = (Throw e, w') -> try_catch m h w = h e w'.
Proof. unfold try_catch. now intros ->. Qed.


(** ** auth.ts *)

Lemma getAccessToken_catch_throws env e w :
  exists m, getAccessToken_catch env e w = (Throw (Error m), w).
Proof.
  unfold getAccessToken_catch, throw. destruct e as [m c r|m]; [|eauto].
  destruct (status_is _ 401); [eauto|]. destruct (status_is _ 403); eauto.
Qed.

(** The token exchange, case by case on the reply. *)
Lemma tokenExchange_run net env w :
  let reply := auth_server net (sent w) (tokenRequest env) in
  let w1 := request_sent w (tokenRequest env) (elapsed reply) in
  tokenExchange net env w =
  match wire reply with
  | Resolved r =>
      (Return (access_token (body r)),
       cache_stored w1 (cacheKey env)
         {| token := access_token (body r);
            expiresAt := now w1 + expires_in (body r) * 1000 |})
  | other => getAccessToken_catch env
               (match settle (tokenRequest env) other with
                | Throw e => e
                | _ => Error EmptyString
                end) w1
  end.
Proof.
  intros reply w1. unfold tokenExchange, try_catch, bind, dispatch.
  fold reply. fold w1. destruct (wire reply); reflexivity.
Qed.

Lemma tokenExchange_sent net env w :
  sent (snd (tokenExchange net env w)) = (sent w ++ [tokenRequest env])%list.
Proof.
  rewrite tokenExchange_run.
  destruct (wire _); try reflexivity;
    match goal with
    | |- context [getAccessToken_catch ?e ?x ?w1] =>
        destruct (getAccessToken_catch_throws e x w1) as [m ->]
    end; reflexivity.
Qed.

Lemma tokenExchange_failed net env w e w' :
  tokenExchange net env w = (Throw e, w') ->
  tokenCache w' = tokenCache w.
Proof.
  rewrite tokenExchange_run.
  destruct (wire _); try discriminate;
    match goal with
    | |- context [getAccessToken_catch ?e ?x ?w1] =>
        destruct (getAccessToken_catch_throws e x w1) as [m ->]
    end; now intros [= _ <-].
Qed.

(** [getAccessToken] is the cached token or the exchange. *)
Lemma getAccessToken_run net env w :
  getAccessToken net env w =
  if fresh (tokenCache w !! cacheKey env) (now w)
  then (Return (from_option token EmptyString (tokenCache w !! cacheKey env)), w)
  else tokenExchange net env w.
Proof.
  unfold getAccessToken, bind, tokenCache_get, Date_now, fresh.
  destruct (tokenCache w !! cacheKey env) as [c|]; [|reflexivity].
  simpl. destruct (expiresAt c >? now w + 30000)%Z; reflexivity.
Qed.

Lemma fresh_spec cached t :
  fresh cached t = true <->
  exists c, cached = Some c /\ (expiresAt c - t > 30000)%Z.
Proof.
  unfold fresh. destruct cached as [c|].
  - rewrite Z.gtb_gt. split.
    + intros H. exists c. split; [reflexivity | lia].
    + intros (c' & [= <-] & H). lia.
  - split; [discriminate | intros (c & [=] & _)].
Qed.

Lemma fresh_later cached t t' :
  fresh cached t = false -> (t <= t')%Z -> fresh cached t' = false.
Proof.
  unfold fresh. destruct cached as [c|]; [|reflexivity].
  rewrite !Z.gtb_ltb, !Z.ltb_ge. lia.
Qed.

(** A returned token is the one the cache holds afterwards. *)
Lemma getAccessToken_returns_cached net env w t w' :
  getAccessToken net env w = (Return t, w') ->
  exists c, tokenCache w' !! cacheKey env = Some c /\ token c = t.
Proof.
  rewrite getAccessToken_run.
  destruct (fresh _ _) eqn:Hf.
  - apply fresh_spec in Hf as (c & Hc & _). rewrite Hc. simpl.
    intros [= <- <-]. now exists c.
  - rewrite tokenExchange_run. destruct (wire _) as [r|r|m|m];
      try (match goal with
           | |- context [getAccessToken_catch ?e ?x ?w1] =>
               destruct (getAccessToken_catch_throws e x w1) as [m' ->]
           end; discriminate).
    intros [= <- <-]. eexists. split; [apply lookup_insert_eq | reflexivity].
Qed.

(** A transport failure without a response is an [AxiosError], so it is
    classified by its (missing) status. *)
Lemma getAccessToken_no_response net env w msg :
  fresh (tokenCache w !! cacheKey env) (now w) = false ->
  wire (auth_server net (sent w) (tokenRequest env)) = NoResponse msg ->
  fst (getAccessToken net env w) =
  Throw (Error ("Failed to authenticate with " +:+ EnvConfig.name env
                +:+ ": " +:+ msg)).
Proof.
  intros Hf Hw. rewrite getAccessToken_run, Hf, tokenExchange_run, Hw.
  reflexivity.
Qed.


(** C10. When [getAccessToken] fails, whatever the reason, the token
    cache is exactly what it was before the call, and a later call with
    the same credential (same cache, clock not set back) performs the
    exchange again: it sends the token request. *)
Theorem failed_exchange_leaves_cache (net : Platform) (env : EnvConfig)
    (w w' : World) (e : Thrown) :
  getAccessToken net env w = (Throw e, w') ->
  tokenCache w' = tokenCache w
  /\ forall (net2 : Platform) (w2 : World),
       tokenCache w2 = tokenCache w' -> (now w <= now w2)%Z ->
       sent (snd (getAccessToken net2 env w2))
       = (sent w2 ++ [tokenRequest env])%list.
Proof.
  rewrite getAccessToken_run. destruct (fresh _ _) eqn:Hf; [discriminate|].
  intros Hx. pose proof (tokenExchange_failed _ _ _ _ _ Hx) as Hc.
  split; [exact Hc|]. intros net2 w2 Hc2 Hle.
  rewrite getAccessToken_run, Hc2, Hc, (fresh_later _ _ _ Hf Hle).
  apply tokenExchange_sent.
Qed.

Lemma hex_run_length n s r :
  hex_run n s = Some r -> String.length s = (n + String.length r)%nat.
Proof.
  revert s. induction n as [|n IH]; simpl; intros s H.
  - now injection H as ->.
  - destruct s as [|c s]; [discriminate|]. destruct (is_hex c); [|discriminate].
    simpl. now rewrite (IH _ H).
Qed.

Lemma dash_length s r :
  dash s = Some r -> String.length s = S (String.length r).
Proof.
  unfold dash. destruct s as [|c s]; [discriminate|].
  destruct c as [[] [] [] [] [] [] [] []]; try discriminate.
  now intros [= ->].
Qed.

Lemma uuid_length s : uuidRegex_test s = true -> String.length s = 36%nat.
Proof.
  unfold uuidRegex_test, hex_group, then_dash.
  destruct (hex_run 8 s) as [s1|] eqn:H1; [|discriminate].
  destruct (dash s1) as [s2|] eqn:D1; [|discriminate].
  destruct (hex_run 4 s2) as [s3|] eqn:H2; [|discriminate].
  destruct (dash s3) as [s4|] eqn:D2; [|discriminate].
  destruct (hex_run 4 s4) as [s5|] eqn:H3; [|discriminate].
  destruct (dash s5) as [s6|] eqn:D3; [|discriminate].
  destruct (hex_run 4 s6) as [s7|] eqn:H4; [|discriminate].
  destruct (dash s7) as [s8|] eqn:D4; [|discriminate].
  destruct (hex_run 12 s8) as [s9|] eqn:H5; [|discriminate].
  destruct s9; [|discriminate]. intros _.
  apply hex_run_length in H1, H2, H3, H4, H5.
  apply dash_length in D1, D2, D3, D4. simpl in H5. lia.
Qed.

Lemma append_inj_length (a b x y : string) :
  String.length a = String.length b -> a +:+ x = b +:+ y -> a = b /\ x = y.
Proof.
  revert b. induction a as [|c a IH]; intros [|d b]; simpl; try discriminate.
  - auto.
  - intros [= Hl]. rewrite !append_cons. intros [= -> H].
    destruct (IH _ Hl H) as [-> ->]. auto.
Qed.

(** For validated environment ids the key determines the pair. *)
Lemma cacheKey_inj (e1 e2 : EnvConfig) :
  uuidRegex_test (EnvConfig.envId e1) = true ->
  uuidRegex_test (EnvConfig.envId e2) = true ->
  cacheKey e1 = cacheKey e2 ->
  EnvConfig.envId e1 = EnvConfig.envId e2
  /\ EnvConfig.clientId e1 = EnvConfig.clientId e2.
Proof.
  intros H1%uuid_length H2%uuid_length. unfold cacheKey. intros H.
  apply append_inj_length in H as [Hid H]; [|congruence].
  split; [exact Hid|]. now injection H.
Qed.

(** C7. The cache key is the pair (tenant id, client id).  Two
    credentials that agree on [envId] and [clientId], whatever their
    display names, secrets or regions, have the same key, and a token
    obtained through the first is returned for the second, without a
    network call, as long as the entry is fresh.  Conversely, for the
    environment ids [validateEnvironment] accepts, equal keys mean equal
    [envId] and [clientId]. *)
Theorem cache_key_is_tenant_and_client (e1 e2 : EnvConfig) :
  (EnvConfig.envId e1 = EnvConfig.envId e2 ->
   EnvConfig.clientId e1 = EnvConfig.clientId e2 ->
   cacheKey e1 = cacheKey e2
   /\ forall (net net2 : Platform) (w w1 w2 : World) (t : string),
        getAccessToken net e1 w = (Return t, w1) ->
        tokenCache w2 = tokenCache w1 ->
        fresh (tokenCache w1 !! cacheKey e1) (now w2) = true ->
        getAccessToken net2 e2 w2 = (Return t, w2))
  /\
  (uuidRegex_test (EnvConfig.envId e1) = true ->
   uuidRegex_test (EnvConfig.envId e2) = true ->
   cacheKey e1 = cacheKey e2 ->
   EnvConfig.envId e1 = EnvConfig.envId e2
   /\ EnvConfig.clientId e1 = EnvConfig.clientId e2).
Proof.
  split; [|apply cacheKey_inj].
  intros Hid Hcl.
  assert (Hk : cacheKey e1 = cacheKey e2) by (unfold cacheKey; congruence).
  split; [exact Hk|].
  intros net net2 w w1 w2 t Hget Hc Hf.
  apply getAccessToken_returns_cached in Hget as (c & Hl & <-).
  rewrite getAccessToken_run, Hc, <- Hk, Hf, Hl. reflexivity.
Qed.

(** C8. For the credential of the scenario (any display name, any
    client id), the token request is a POST to
    [https://auth.pingone.eu/11111111-2222-3333-4444-555555555555/as/token]
    with [Authorization: Basic base64(clientId:s3cret)], a
    form-urlencoded content type and the body
    [grant_type=client_credentials]; it is the only request
    [getAccessToken] ever sends, and it is sent exactly when the cache
    holds no fresh entry.  For the client id of the README the header is
    spelled out. *)
Theorem token_request_scenario (name clientId : string) (net : Platform)
    (w : World) :
  let env := {| EnvConfig.name := name;
                EnvConfig.envId := "11111111-2222-3333-4444-555555555555";
                EnvConfig.clientId := clientId;
                EnvConfig.clientSecret := "s3cret";
                EnvConfig.tld := eu |} in
  tokenRequest env =
  {| method := POST;
     baseURL := None;
     url := "https://auth.pingone.eu/11111111-2222-3333-4444-555555555555/as/token";
     headers := [("Authorization",
                  "Basic " +:+ toBase64 (clientId +:+ ":" +:+ "s3cret"));
                 ("Content-Type", "application/x-www-form-urlencoded")];
     data := Text "grant_type=client_credentials";
     timeout := 10000;
     _retryCount := None |}
  /\ sent (snd (getAccessToken net env w))
     = (sent w ++ if fresh (tokenCache w !! cacheKey env) (now w)
                  then [] else [tokenRequest env])%list
  /\ toBase64 ("aaaaaaaa-bbbb-cccc-dddd-eeeeeeeeeeee" +:+ ":" +:+ "s3cret")
     = "YWFhYWFhYWEtYmJiYi1jY2NjLWRkZGQtZWVlZWVlZWVlZWVlOnMzY3JldA==".
Proof.
  intros env. split; [reflexivity|]. split; [|reflexivity].
  rewrite getAccessToken_run. destruct (fresh _ _).
  - simpl. now rewrite app_nil_r.
  - apply tokenExchange_sent.
Qed.

(** C4 (the code at a failing input).  With the network down, the token
    request of a fresh process gets no response; the error raised is the
    generic "Failed to authenticate with" one, carrying the transport's
    message, not "Network error while authenticating with". *)
Theorem getAccessToken_offline_is_generic :
  fst (getAccessToken offline devUS world0)
  = Throw (Error "Failed to authenticate with Dev US: Network Error")
  /\ fst (getAccessToken offline devUS world0)
     <> Throw (Error "Network error while authenticating with Dev US").
Proof.
  assert (H : fst (getAccessToken offline devUS world0)
              = Throw (Error "Failed to authenticate with Dev US: Network Error"))
    by exact (getAccessToken_no_response offline devUS world0 "Network Error"
                eq_refl eq_refl).
  split; [exact H|]. rewrite H. discriminate.
Qed.


(** A rejected client: the cache stays empty and the next call asks
    again. *)
Lemma failed_exchange_leaves_cache_witness :
  tokenCache (snd (getAccessToken unauthorized devUS world0)) = tokenCache world0
  /\ sent (snd (getAccessToken (always 404) devUS
                  (snd (getAccessToken unauthorized devUS world0))))
     = [tokenRequest devUS; tokenRequest devUS].
Proof.
  destruct (failed_exchange_leaves_cache unauthorized devUS world0
              (snd (getAccessToken unauthorized devUS world0))
              (Error "Authentication failed for Dev US: Invalid client credentials"))
    as [Hc Hagain].
  - vm_compute. reflexivity.
  - split; [exact Hc|].
    rewrite (Hagain (always 404) _ eq_refl); [reflexivity|].
    vm_compute. discriminate.
Defined.

(** Two configuration entries for one tenant and client share the token
    obtained through the first. *)
Lemma cache_key_is_tenant_and_client_witness :
  cacheKey devUS = cacheKey devUS_alias
  /\ getAccessToken offline devUS_alias
       (snd (getAccessToken (always 404) devUS world0))
     = (Return "tok-1", snd (getAccessToken (always 404) devUS world0))
  /\ (cacheKey devUS = cacheKey devUS_alias ->
      EnvConfig.clientId devUS = EnvConfig.clientId devUS_alias).
Proof.
  destruct (cache_key_is_tenant_and_client devUS devUS_alias) as [H Hinj].
  destruct (H eq_refl eq_refl) as [Hk Hshare].
  split; [exact Hk|]. split.
  - apply (Hshare (always 404) offline world0
                   (snd (getAccessToken (always 404) devUS world0))).
    + vm_compute. reflexivity.
    + reflexivity.
    + vm_compute. reflexivity.
  - intros Hk'. apply Hinj; [vm_compute; reflexivity .. | exact Hk'].
Defined.

(** ** api.ts: the retry interceptor *)

Lemma retryable_status_spec (r : Response (option Json)) :
  retryable_status (Some r) = true <-> (status r = 429 \/ status r >= 500)%Z.
Proof.
  unfold retryable_status. simpl.
  rewrite orb_true_iff, andb_true_iff, negb_true_iff, Z.eqb_eq, Z.eqb_neq,
    Z.geb_le.
  lia.
Qed.

Lemma shouldRetry_spec (r : Response (option Json)) (n : nat) :
  retryable_status (Some r) && (n <? MAX_RETRIES)%nat = true
  <-> retry_condition r n.
Proof.
  unfold retry_condition, MAX_RETRIES.
  now rewrite andb_true_iff, retryable_status_spec, Nat.ltb_lt.
Qed.

Lemma interceptor_retries (client : RequestConfig -> Promise (Response Json))
    message config r w :
  retry_condition r (retryCount config) ->
  interceptor client (AxiosError message (Some config) (Some r)) w
  = client (set_retryCount config (S (retryCount config)))
      (timer_elapsed w (1000 * 2 ^ (Z.of_nat (S (retryCount config)) - 1))).
Proof.
  intros Hc. apply shouldRetry_spec in Hc. unfold interceptor.
  fold (retryCount config). rewrite Hc. reflexivity.
Qed.

Lemma interceptor_rejects (client : RequestConfig -> Promise (Response Json))
    message config r w :
  ~ retry_condition r (retryCount config) ->
  interceptor client (AxiosError message (Some config) (Some r)) w
  = (Throw (AxiosError message
              (Some (set_retryCount config (retryCount config))) (Some r)), w).
Proof.
  intros Hc. unfold interceptor. fold (retryCount config).
  destruct (retryable_status (Some r)
            && (retryCount config <? MAX_RETRIES)%nat) eqn:Hs.
  - now apply shouldRetry_spec in Hs.
  - reflexivity.
Qed.


(** One call of the client, case by case on the reply. *)
Lemma client_call_step net fuel config w :
  let reply := api_server net (sent w) config in
  let w1 := request_sent w config (elapsed reply) in
  client_call net (S fuel) config w =
  match wire reply with
  | Resolved r => (Return r, w1)
  | BadStatus r =>
      interceptor (client_call net fuel)
        (AxiosError ("Request failed with status code " +:+ pretty (status r))
                    (Some config) (Some r)) w1
  | NoResponse m =>
      (Throw (AxiosError m (Some (set_retryCount config (retryCount config)))
                         None), w1)
  | Crash m => (Throw (Error m), w1)
  end.
Proof.
  intros reply w1. simpl. unfold try_catch, dispatch. fold reply. fold w1.
  destruct (wire reply); reflexivity.
Qed.

(** A request is never resubmitted more than [MAX_RETRIES] times: with
    a budget above the retries left, the call settles. *)
Lemma client_call_settles net fuel :
  forall config w,
    (MAX_RETRIES - retryCount config < fuel)%nat ->
    fst (client_call net fuel config w) <> Pending.
Proof.
  induction fuel as [|fuel IH]; intros config w Hf; [lia|].
  rewrite client_call_step. destruct (wire _) as [r|r|m|m]; try discriminate.
  destruct (retryable_status (Some r)
            && (retryCount config <? MAX_RETRIES)%nat) eqn:Hs.
  - apply shouldRetry_spec in Hs. rewrite interceptor_retries by exact Hs.
    apply IH. destruct Hs as [_ Hn]. unfold retryCount at 1. simpl.
    unfold MAX_RETRIES in *. lia.
  - assert (Hn : ~ retry_condition r (retryCount config)).
    { intros Hc. apply shouldRetry_spec in Hc. congruence. }
    rewrite interceptor_rejects by exact Hn. discriminate.
Qed.

(** A response that is not retried reaches the caller after one
    request. *)
Lemma client_call_not_retried net fuel config w r :
  wire (api_server net (sent w) config) = BadStatus r ->
  ~ retry_condition r (retryCount config) ->
  client_call net (S fuel) config w
  = (Throw (AxiosError ("Request failed with status code "
                        +:+ pretty (status r))
                       (Some (set_retryCount config (retryCount config)))
                       (Some r)),
     request_sent w config (elapsed (api_server net (sent w) config))).
Proof.
  intros Hw Hc. rewrite client_call_step, Hw.
  now apply interceptor_rejects.
Qed.

Lemma client_call_resolved net fuel config w r :
  wire (api_server net (sent w) config) = Resolved r ->
  client_call net (S fuel) config w
  = (Return r, request_sent w config (elapsed (api_server net (sent w) config))).
Proof. intros Hw. now rewrite client_call_step, Hw. Qed.

(** Three rate-limited answers and then a success: the caller gets the
    success after waits of 1, 2 and 4 seconds and four requests, all for
    the same resource. *)
Example retry_three_times_then_success :
  let '(result, w) := client_call (throttled 3) client_fuel sample_get world0 in
  result = Return {| status := 200; body := login_form |}
  /\ timers w = [1000; 2000; 4000]%Z
  /\ map url (sent w) = repeat (url sample_get) 4
  /\ map _retryCount (sent w) = [None; Some 1; Some 2; Some 3]%nat.
Proof. vm_compute. repeat split; reflexivity. Qed.

(** A fourth rate-limited answer reaches the caller; nothing more is
    sent. *)
Example retry_gives_up_after_three :
  let '(result, w) := client_call (throttled 4) client_fuel sample_get world0 in
  (exists m c, result = Throw (AxiosError m c (Some {| status := 429; body := None |})))
  /\ timers w = [1000; 2000; 4000]%Z
  /\ length (sent w) = 4%nat.
Proof. vm_compute. repeat split; try reflexivity. eauto. Qed.

(** A status that is not retried: one request, no timer. *)
Example not_found_is_not_retried :
  let '(result, w) := client_call (always 404) client_fuel sample_get world0 in
  (exists m c, result = Throw (AxiosError m c (Some {| status := 404; body := None |})))
  /\ timers w = []
  /\ sent w = [sample_get].
Proof. vm_compute. repeat split; try reflexivity. eauto. Qed.


(** ** api.ts: the classification of errors *)



Lemma uploadForm_catch_names_environment env formData e w :
  exists m, uploadForm_catch env formData e w = (Throw (Error m), w)
            /\ (includes m (EnvConfig.name env) = true
                \/ exists message, m = invalid_form_data formData message).
Proof.
  unfold uploadForm_catch, throw. destruct e as [m c r|m].
  - destruct (status_is _ 401); [|destruct (status_is _ 403);
      [|destruct (status_is _ 400); [|destruct (status_is _ 409)]]];
      eexists; (split; [reflexivity|]);
      try (left; includes; fail).
    right. eexists. reflexivity.
  - eexists; (split; [reflexivity | left; includes]).
Qed.

(** [downloadForm] once the client exists and its request has failed. *)
Lemma downloadForm_failed net env formId w client w1 e w2 :
  createApiClient net env w = (Return client, w1) ->
  client_get net client
    ("/environments/" +:+ EnvConfig.envId env +:+ "/forms/" +:+ formId) w1
  = (Throw e, w2) ->
  downloadForm net env formId w = downloadForm_catch env formId e w2.
Proof.
  intros Hc Hg. unfold downloadForm.
  apply try_catch_Throw. rewrite (bind_Return _ _ _ _ _ Hc).
  now apply bind_Throw.
Qed.

(** C9. For every form id and environment: when the request of
    [downloadForm] is answered with HTTP 404, the error raised is
    "Form <formId> not found in <name>", whose message contains the
    form id and the environment's display name. *)
Theorem downloadForm_not_found (net : Platform) (env : EnvConfig)
    (formId : string) (w w1 : World) (client : Client)
    (r : Response (option Json)) :
  createApiClient net env w = (Return client, w1) ->
  wire (api_server net (sent w1)
          (client_config client GET
             ("/environments/" +:+ EnvConfig.envId env +:+ "/forms/"
              +:+ formId) NoBody)) = BadStatus r ->
  status r = 404%Z ->
  let message := "Form " +:+ formId +:+ " not found in "
                 +:+ EnvConfig.name env in
  fst (downloadForm net env formId w) = Throw (Error message)
  /\ includes message formId = true
  /\ includes message (EnvConfig.name env) = true.
Proof.
  intros Hc Hw Hs message. split; [|split; unfold message; includes].
  rewrite (downloadForm_failed _ _ _ _ _ _ _ _ Hc
             (client_call_not_retried _ _ _ _ _ Hw
                ltac:(unfold retry_condition; rewrite Hs; lia))).
  unfold downloadForm_catch. simpl. rewrite Hs. reflexivity.
Qed.

(** The scenario: form [f-1] missing in [Dev US]. *)
Lemma downloadForm_not_found_witness :
  fst (downloadForm (always 404) devUS "f-1" world0)
  = Throw (Error "Form f-1 not found in Dev US")
  /\ includes "Form f-1 not found in Dev US" "f-1" = true
  /\ includes "Form f-1 not found in Dev US" "Dev US" = true.
Proof.
  eapply (downloadForm_not_found (always 404) devUS "f-1" world0).
  - vm_compute. reflexivity.
  - vm_compute. reflexivity.
  - reflexivity.
Defined.




(** ** api.ts: listing *)

Section SortFacts.
Context {A : Type} (compare : A -> A -> Z).

Hypothesis compare_total :
  forall a b, ordered compare a b \/ ordered compare b a.
Hypothesis compare_trans :
  forall a b c,
    ordered compare a b -> ordered compare b c -> ordered compare a c.

Lemma sort_insert_perm x l : Permutation (sort_insert compare x l) (x :: l).
Proof.
  induction l as [|y l IH]; simpl; [reflexivity|].
  destruct (compare x y <=? 0)%Z; [reflexivity|].
  rewrite IH. apply perm_swap.
Qed.

Lemma Array_sort_perm l : Permutation (Array_sort compare l) l.
Proof.
  induction l as [|x l IH]; simpl; [reflexivity|].
  unfold Array_sort in *. simpl. rewrite sort_insert_perm. now constructor.
Qed.

Lemma sort_insert_HdRel y x l :
  ordered compare y x ->
  HdRel (ordered compare) y l ->
  HdRel (ordered compare) y (sort_insert compare x l).
Proof.
  intros Hyx Hl. destruct l as [|z l]; simpl; [now constructor|].
  destruct (compare x z <=? 0)%Z; constructor; [assumption|].
  now inversion Hl.
Qed.

Lemma sort_insert_sorted x l :
  Sorted (ordered compare) l ->
  Sorted (ordered compare) (sort_insert compare x l).
Proof.
  induction 1 as [|y l Hs IH Hd]; simpl; [repeat constructor|].
  destruct (compare x y <=? 0)%Z eqn:Hc.
  - apply Z.leb_le in Hc. repeat constructor; assumption.
  - apply Z.leb_gt in Hc. constructor; [exact IH|].
    apply sort_insert_HdRel; [|exact Hd].
    destruct (compare_total y x) as [H|H]; [exact H|].
    unfold ordered in H. lia.
Qed.

Lemma Array_sort_sorted l :
  StronglySorted (ordered compare) (Array_sort compare l).
Proof.
  apply Sorted_StronglySorted; [exact compare_trans|].
  induction l as [|x l IH]; [constructor|].
  apply sort_insert_sorted, IH.
Qed.
End SortFacts.

Section ListFormsFacts.
Variable localeCompare : string -> string -> Z.
Variable URL : string -> option (string * string).

(** One turn of the loop on a page that arrives. *)
Lemma listForms_loop_turn net client fuel forms url u w r w1 :
  or_null url = Some u ->
  client_get net client u w = (Return r, w1) ->
  listForms_loop URL net client (S fuel) forms url w
  = match next_url URL (body r) with
    | Some next =>
        listForms_loop URL net client fuel
          (forms ++ page_forms (body r))%list next w1
    | None => (Throw (Error "Invalid URL"), w1)
    end.
Proof.
  intros Hurl Hget. cbn [listForms_loop]. rewrite Hurl.
  rewrite (bind_Return _ _ _ _ _ Hget).
  unfold next_url, page_forms.
  destruct (or_null (Json._links_next_href (body r))) as [href|].
  - destruct (startsWith href "http").
    + destruct (URL href) as [[pathname search]|];
        destruct (Json._embedded_forms (body r));
        rewrite ?app_nil_r; reflexivity.
    + destruct (Json._embedded_forms (body r));
        rewrite ?app_nil_r; reflexivity.
  - destruct (Json._embedded_forms (body r));
      rewrite ?app_nil_r; reflexivity.
Qed.


Hypothesis localeCompare_total :
  forall a b, (localeCompare a b <= 0 \/ localeCompare b a <= 0)%Z.
Hypothesis localeCompare_trans :
  forall a b c, (localeCompare a b <= 0)%Z -> (localeCompare b c <= 0)%Z ->
                (localeCompare a c <= 0)%Z.

End ListFormsFacts.

Lemma bytewise_leb a b : (bytewise a b <= 0)%Z <-> String.leb a b = true.
Proof.
  unfold bytewise, String.leb. destruct (String.compare a b); split;
    intros H; try reflexivity; try lia; discriminate.
Qed.

Lemma bytewise_total a b : (bytewise a b <= 0 \/ bytewise b a <= 0)%Z.
Proof. rewrite !bytewise_leb. apply String.leb_total. Qed.

Lemma bytewise_trans a b c :
  (bytewise a b <= 0)%Z -> (bytewise b c <= 0)%Z -> (bytewise a c <= 0)%Z.
Proof.
  rewrite !bytewise_leb. intros H1%Is_true_true H2%Is_true_true.
  apply Is_true_true. exact (transitivity (R := String.le) H1 H2).
Qed.


(** ** forms.ts: batches *)



Section FormsFacts.
Variable saveFormToFile : Json -> string -> Promise string.
Variable loadFormFromFile : string -> Promise Json.
Variable promptForMultipleFormNames :
  list (LocalFormFile * Json) -> Promise (gmap string string).
Variable sanitize : string -> string.





End FormsFacts.

Section BatchFacts.
Variable saveFormToFile : Json -> string -> Promise string.
Variable loadFormFromFile : string -> Promise Json.
Variable promptForMultipleFormNames :
  list (LocalFormFile * Json) -> Promise (gmap string string).
Variable sanitize : string -> string.

(** The collaborators answer: reading a file settles, and the prompt
    for the names returns. *)
Hypothesis load_settles :
  forall filename w, fst (loadFormFromFile filename w) <> Pending.
Hypothesis prompt_returns :
  forall formsWithData w,
  exists nameMap w',
    promptForMultipleFormNames formsWithData w = (Return nameMap, w').



End BatchFacts.





(** * Further properties *)

(** ** auth.ts: errors, the cache of other credentials, reuse *)

Lemma getAccessToken_catch_names_environment env e w :
  exists m, getAccessToken_catch env e w = (Throw (Error m), w)
            /\ includes m (EnvConfig.name env) = true.
Proof.
  unfold getAccessToken_catch, throw. destruct e as [m c r|m].
  - destruct (status_is _ 401); [|destruct (status_is _ 403)];
      eexists; (split; [reflexivity | includes]).
  - eexists; (split; [reflexivity | includes]).
Qed.

Lemma getAccessToken_throws_plain_Error net env w e w' :
  getAccessToken net env w = (Throw e, w') -> exists m, e = Error m.
Proof.
  rewrite getAccessToken_run. destruct (fresh _ _); [discriminate|].
  rewrite tokenExchange_run.
  destruct (wire _) as [r|r|m|m]; try discriminate;
    match goal with
    | |- context [getAccessToken_catch ?e ?x ?w1] =>
        destruct (getAccessToken_catch_throws e x w1) as [m' ->]
    end; intros [= <- _]; eauto.
Qed.

(** X1. Every error [getAccessToken] raises is a plain [Error] whose
    message contains the environment's display name. *)
Theorem getAccessToken_errors_name_environment (net : Platform)
    (env : EnvConfig) (w w' : World) (e : Thrown) :
  getAccessToken net env w = (Throw e, w') ->
  exists m, e = Error m /\ includes m (EnvConfig.name env) = true.
Proof.
  rewrite getAccessToken_run. destruct (fresh _ _); [discriminate|].
  unfold tokenExchange, try_catch.
  match goal with
  | |- context [bind ?m ?k w] => destruct (bind m k w) as [[t|e0|] w0]
  end; try discriminate.
  destruct (getAccessToken_catch_names_environment env e0 w0) as (m & -> & H).
  intros [= <- _]. eauto.
Qed.

(** The case at the sample inputs: a rejected client. *)
Lemma getAccessToken_errors_name_environment_witness :
  exists m,
    Error "Authentication failed for Dev US: Invalid client credentials"
    = Error m /\ includes m "Dev US" = true.
Proof.
  apply (getAccessToken_errors_name_environment unauthorized devUS world0
           (snd (getAccessToken unauthorized devUS world0))).
  vm_compute. reflexivity.
Defined.

(** X2. How a rejected token request is classified: status 401 is
    "Invalid client credentials", status 403 is "Insufficient
    permissions", and every other status is "Failed to authenticate
    with", followed by the platform's [error_description] when the body
    has a non-empty one and by the transport's message otherwise. *)
Theorem getAccessToken_status_classification (net : Platform)
    (env : EnvConfig) (w : World) (r : Response (option Json)) :
  fresh (tokenCache w !! cacheKey env) (now w) = false ->
  wire (auth_server net (sent w) (tokenRequest env)) = BadStatus r ->
  fst (getAccessToken net env w)
  = Throw (Error
      (if (status r =? 401)%Z then
         "Authentication failed for " +:+ EnvConfig.name env
         +:+ ": Invalid client credentials"
       else if (status r =? 403)%Z then
         "Access denied for " +:+ EnvConfig.name env
         +:+ ": Insufficient permissions"
       else
         "Failed to authenticate with " +:+ EnvConfig.name env +:+ ": "
         +:+ or_else (response_error_description (Some r))
               ("Request failed with status code " +:+ pretty (status r)))).
Proof.
  intros Hf Hw. rewrite getAccessToken_run, Hf, tokenExchange_run, Hw.
  unfold getAccessToken_catch. simpl.
  destruct (status r =? 401)%Z; [reflexivity|].
  destruct (status r =? 403)%Z; reflexivity.
Qed.

Lemma getAccessToken_status_classification_witness :
  fst (getAccessToken invalid_client devUS world0)
  = Throw (Error "Failed to authenticate with Dev US: Unsupported grant type").
Proof.
  exact (getAccessToken_status_classification invalid_client devUS world0
           _ eq_refl eq_refl).
Defined.

(** X3. [getAccessToken] only ever writes the entry of its own
    credential: the entry of every other key is what it was, whether the
    call succeeds or fails, and no entry is removed. *)
Theorem getAccessToken_keeps_other_entries (net : Platform) (env : EnvConfig)
    (w : World) (key : string) :
  let w' := snd (getAccessToken net env w) in
  (key <> cacheKey env -> tokenCache w' !! key = tokenCache w !! key)
  /\ (is_Some (tokenCache w !! key) -> is_Some (tokenCache w' !! key)).
Proof.
  intros w'. subst w'. rewrite getAccessToken_run.
  destruct (fresh _ _); [split; auto|].
  rewrite tokenExchange_run.
  destruct (wire _) as [r|r|m|m];
    try (match goal with
         | |- context [getAccessToken_catch ?e ?x ?w1] =>
             destruct (getAccessToken_catch_throws e x w1) as [m' ->]
         end; split; auto).
  simpl. split.
  - intros Hk. now rewrite lookup_insert_ne.
  - intros Hs. destruct (decide (cacheKey env = key)) as [<-|Hk].
    + rewrite lookup_insert_eq. eauto.
    + now rewrite lookup_insert_ne.
Qed.

(** The other credential of a process that holds a token for [devUS]. *)
Lemma getAccessToken_keeps_other_entries_witness :
  tokenCache (snd (getAccessToken (always 404) devUS_eu world_cached))
    !! cacheKey devUS
  = Some {| token := "tok-0"; expiresAt := 1700000060000 |}.
Proof.
  destruct (getAccessToken_keeps_other_entries (always 404) devUS_eu
              world_cached (cacheKey devUS)) as [H _].
  rewrite H; [vm_compute; reflexivity | vm_compute; discriminate].
Defined.

(** X4. There is no retry at this layer: whatever the token endpoint
    answers, a rate limit or a server error included, [getAccessToken]
    starts no timer and sends the token request at most once. *)
Theorem getAccessToken_never_retries (net : Platform) (env : EnvConfig)
    (w : World) :
  let w' := snd (getAccessToken net env w) in
  timers w' = timers w
  /\ (sent w' = sent w \/ sent w' = (sent w ++ [tokenRequest env])%list).
Proof.
  intros w'. subst w'. rewrite getAccessToken_run.
  destruct (fresh _ _); [split; auto|].
  split; [|right; apply tokenExchange_sent].
  rewrite tokenExchange_run.
  destruct (wire _) as [r|r|m|m]; try reflexivity;
    match goal with
    | |- context [getAccessToken_catch ?e ?x ?w1] =>
        destruct (getAccessToken_catch_throws e x w1) as [m' ->]
    end; reflexivity.
Qed.

(** X5. The window in which a new token is reused.  After an exchange
    that succeeded, with the response arriving at time [t1] and a
    lifetime of [expires_in] seconds, a later call with the same
    credential and the same cache sends nothing exactly when its time
    [t2] satisfies [t2 + 30000 < t1 + expires_in * 1000], and it then
    returns the same token.  A token that lives 30 seconds or less is
    therefore never reused. *)
Theorem token_reuse_window (net net2 : Platform) (env : EnvConfig)
    (w w2 : World) (r : Response TokenResponse) :
  fresh (tokenCache w !! cacheKey env) (now w) = false ->
  wire (auth_server net (sent w) (tokenRequest env)) = Resolved r ->
  tokenCache w2 = tokenCache (snd (getAccessToken net env w)) ->
  let t1 := (now w + elapsed (auth_server net (sent w) (tokenRequest env)))%Z in
  (sent (snd (getAccessToken net2 env w2)) = sent w2
   <-> (now w2 + 30000 < t1 + expires_in (body r) * 1000)%Z)
  /\ ((now w2 + 30000 < t1 + expires_in (body r) * 1000)%Z ->
      getAccessToken net2 env w2 = (Return (access_token (body r)), w2)).
Proof.
  intros Hf Hw Hc t1.
  assert (Hl : tokenCache w2 !! cacheKey env
               = Some {| token := access_token (body r);
                         expiresAt := t1 + expires_in (body r) * 1000 |}).
  { rewrite Hc, getAccessToken_run, Hf, tokenExchange_run, Hw. simpl.
    apply lookup_insert_eq. }
  assert (Hrun := getAccessToken_run net2 env w2).
  rewrite Hl in Hrun. simpl in Hrun.
  destruct (t1 + expires_in (body r) * 1000 >? now w2 + 30000)%Z eqn:Hgt.
  - apply Z.gtb_gt in Hgt. rewrite Hrun. simpl. split; [|reflexivity].
    split; [lia | reflexivity].
  - rewrite Z.gtb_ltb, Z.ltb_ge in Hgt. split; [|lia]. split; [|lia].
    rewrite Hrun, tokenExchange_sent. intros H.
    apply (f_equal length) in H. rewrite length_app in H. simpl in H. lia.
Qed.

(** The token of the sample platform lives an hour: asked for again half
    an hour later it is reused. *)
Lemma token_reuse_window_witness :
  getAccessToken offline devUS
    (timer_elapsed (snd (getAccessToken (always 404) devUS world0)) 1800000)
  = (Return "tok-1",
     timer_elapsed (snd (getAccessToken (always 404) devUS world0)) 1800000).
Proof.
  apply (token_reuse_window (always 404) offline devUS world0
           (timer_elapsed (snd (getAccessToken (always 404) devUS world0))
              1800000)
           {| status := 200;
              body := {| access_token := "tok-1"; expires_in := 3600 |} |}).
  - vm_compute. reflexivity.
  - reflexivity.
  - reflexivity.
  - vm_compute. reflexivity.
Defined.

(** ** api.ts: what one call of the client puts on the wire *)

Lemma set_retryCount_twice config a b :
  set_retryCount (set_retryCount config a) b = set_retryCount config b.
Proof. reflexivity. Qed.

Lemma resubmissions_retried config a n k :
  resubmissions (set_retryCount config a) n k = resubmissions config n k.
Proof. reflexivity. Qed.

(** The requests and timers of one call, for any request. *)
Lemma client_call_trace net fuel :
  forall config w,
    (MAX_RETRIES - retryCount config < fuel)%nat ->
    exists k,
      (k <= MAX_RETRIES - retryCount config)%nat
      /\ sent (snd (client_call net fuel config w))
         = (sent w ++ config :: resubmissions config (retryCount config) k)%list
      /\ timers (snd (client_call net fuel config w))
         = (timers w ++ map backoff (seq (S (retryCount config)) k))%list
      /\ tokenCache (snd (client_call net fuel config w)) = tokenCache w.
Proof.
  induction fuel as [|fuel IH]; intros config w Hf; [lia|].
  rewrite client_call_step.
  destruct (wire _) as [r|r|m|m];
    [exists 0%nat; simpl; rewrite ?app_nil_r; repeat split; lia
    | | exists 0%nat; simpl; rewrite ?app_nil_r; repeat split; lia ..].
  destruct (retryable_status (Some r)
            && (retryCount config <? MAX_RETRIES)%nat) eqn:Hs.
  - apply shouldRetry_spec in Hs. rewrite interceptor_retries by exact Hs.
    destruct Hs as [_ Hn]. unfold MAX_RETRIES in *.
    match goal with
    | |- context [client_call net fuel ?c ?w1] =>
        destruct (IH c w1) as (k & Hk & Hsent & Htimers & Hcache)
    end.
    { unfold retryCount at 1. simpl. lia. }
    change (retryCount (set_retryCount config (S (retryCount config))))
      with (S (retryCount config)) in *.
    exists (S k). rewrite Hsent, Htimers, Hcache.
    rewrite resubmissions_retried. simpl.
    rewrite <- !app_assoc. repeat split. lia.
  - assert (Hn : ~ retry_condition r (retryCount config)).
    { intros Hc. apply shouldRetry_spec in Hc. congruence. }
    rewrite interceptor_rejects by exact Hn.
    exists 0%nat. simpl. rewrite ?app_nil_r. repeat split. lia.
Qed.

Lemma backoff_schedule k :
  (k <= 3)%nat -> map backoff (seq 1 k) = take k [1000; 2000; 4000]%Z.
Proof.
  intros Hk. destruct k as [|[|[|[|k]]]]; try reflexivity. lia.
Qed.

(** X6. One request of an operation, whatever the platform answers,
    settles after at most four submissions: the request itself and at
    most three resubmissions that differ from it in the counter alone
    (same method, URL, headers, so the same bearer token, body and
    timeout), with waits that are the first of 1000, 2000 and 4000 ms,
    so at most 7 seconds in all; the token cache is not touched. *)
Theorem client_request_is_bounded (net : Platform) (client : Client)
    (m : Method) (u : string) (payload : Body) (w : World) :
  let config := client_config client m u payload in
  let result := client_call net client_fuel config w in
  fst result <> Pending
  /\ exists k,
       (k <= 3)%nat
       /\ sent (snd result)
          = (sent w ++ config :: map (set_retryCount config) (seq 1 k))%list
       /\ timers (snd result) = (timers w ++ take k [1000; 2000; 4000]%Z)%list
       /\ (foldr Z.add 0 (take k [1000; 2000; 4000]) <= 7000)%Z
       /\ tokenCache (snd result) = tokenCache w.
Proof.
  intros config result. split.
  - apply client_call_settles. unfold client_fuel, MAX_RETRIES. simpl. lia.
  - destruct (client_call_trace net client_fuel config w)
      as (k & Hk & Hsent & Htimers & Hcache).
    { unfold client_fuel, MAX_RETRIES. simpl. lia. }
    change (retryCount config) with 0%nat in *.
    unfold MAX_RETRIES in Hk. simpl in Hk.
    exists k. split; [exact Hk|]. split; [exact Hsent|].
    split; [rewrite <- backoff_schedule by exact Hk; exact Htimers|].
    split; [|exact Hcache].
    destruct k as [|[|[|[|k]]]]; [vm_compute; discriminate .. | lia].
Qed.

(** A platform that never stops answering with retryable statuses. *)
Lemma client_call_exhausts net fuel :
  (forall history config,
     exists r, wire (api_server net history config) = BadStatus r
               /\ (status r = 429 \/ status r >= 500)%Z) ->
  forall config w,
    (retryCount config <= 3)%nat ->
    (3 - retryCount config < fuel)%nat ->
    exists message r w',
      client_call net fuel config w
      = (Throw (AxiosError message (Some (set_retryCount config 3)) (Some r)),
         w')
      /\ (status r = 429 \/ status r >= 500)%Z
      /\ sent w'
         = (sent w ++ config
            :: resubmissions config (retryCount config)
                 (3 - retryCount config))%list
      /\ timers w'
         = (timers w ++ map backoff (seq (S (retryCount config))
                                        (3 - retryCount config)))%list.
Proof.
  intros Hnet. induction fuel as [|fuel IH]; intros config w Hn Hf; [lia|].
  rewrite client_call_step.
  destruct (Hnet (sent w) config) as (r & -> & Hr).
  destruct (decide (retryCount config < 3)%nat) as [Hlt|Hge].
  - rewrite interceptor_retries by (split; assumption).
    match goal with
    | |- context [client_call net fuel ?c ?w1] =>
        destruct (IH c w1) as (m & r' & w' & Hcall & Hr' & Hsent & Htimers)
    end.
    { unfold retryCount at 1. simpl. lia. }
    { unfold retryCount at 1. simpl. lia. }
    change (retryCount (set_retryCount config (S (retryCount config))))
      with (S (retryCount config)) in *.
    exists m, r', w'. rewrite Hcall, Hsent, Htimers.
    rewrite resubmissions_retried, set_retryCount_twice.
    replace (3 - retryCount config)%nat
      with (S (3 - S (retryCount config))) by lia.
    simpl. rewrite <- !app_assoc. repeat split. exact Hr'.
  - assert (Heq : retryCount config = 3%nat) by lia.
    rewrite interceptor_rejects by (unfold retry_condition; lia).
    rewrite Heq. simpl. do 3 eexists. rewrite ?app_nil_r.
    repeat split. exact Hr.
Qed.

(** X7. When the platform answers every submission with a retryable
    status (429 or 5xx), a request of an operation is submitted exactly
    four times, after waits of 1000, 2000 and 4000 ms, and then fails
    with the last response: the error carries a retryable status and the
    request with its counter at 3. *)
Theorem client_request_gives_up (net : Platform) (client : Client)
    (m : Method) (u : string) (payload : Body) (w : World) :
  (forall history config,
     exists r, wire (api_server net history config) = BadStatus r
               /\ (status r = 429 \/ status r >= 500)%Z) ->
  let config := client_config client m u payload in
  exists message r w',
    client_call net client_fuel config w
    = (Throw (AxiosError message (Some (set_retryCount config 3)) (Some r)), w')
    /\ (status r = 429 \/ status r >= 500)%Z
    /\ sent w' = (sent w ++ [config; set_retryCount config 1;
                             set_retryCount config 2;
                             set_retryCount config 3])%list
    /\ timers w' = (timers w ++ [1000; 2000; 4000]%Z)%list.
Proof.
  intros Hnet config.
  destruct (client_call_exhausts net client_fuel Hnet config w)
    as (message & r & w' & Hcall & Hr & Hsent & Htimers).
  - subst config. unfold retryCount. simpl. lia.
  - subst config. unfold client_fuel, MAX_RETRIES, retryCount. simpl. lia.
  - exists message, r, w'. repeat split; assumption.
Qed.

(** A platform that is down for maintenance. *)
Lemma client_request_gives_up_witness :
  exists message r w',
    client_call (always 503) client_fuel sample_get world0
    = (Throw (AxiosError message (Some (set_retryCount sample_get 3)) (Some r)),
       w')
    /\ (status r = 429 \/ status r >= 500)%Z
    /\ sent w' = [sample_get; set_retryCount sample_get 1;
                  set_retryCount sample_get 2; set_retryCount sample_get 3]
    /\ timers w' = [1000; 2000; 4000]%Z.
Proof.
  apply (client_request_gives_up (always 503) devUS_client GET
           "/environments/11111111-2222-3333-4444-555555555555/forms"
           NoBody world0).
  intros history config. exists {| status := 503; body := None |}.
  split; [reflexivity | right; simpl; lia].
Defined.

(** ** api.ts: the operations *)

Lemma createApiClient_run net env w :
  createApiClient net env w
  = match getAccessToken net env w with
    | (Return token, w1) => (Return (apiClient env token), w1)
    | (Throw e, w1) => (Throw e, w1)
    | (Pending, w1) => (Pending, w1)
    end.
Proof.
  unfold createApiClient, bind.
  destruct (getAccessToken net env w) as [[t|e|] w1]; reflexivity.
Qed.

(** X8. A failure to obtain the token is reported by the three
    operations as a network error: whatever [getAccessToken] raised
    (invalid credentials included), the operation raises "Network error
    while ..." with the environment's name, and no request reaches the
    API. *)
Theorem token_failure_is_reported_as_network_error
    (localeCompare : string -> string -> Z)
    (URL : string -> option (string * string))
    (net : Platform) (fuel : nat) (env : EnvConfig) (formId : string)
    (formData : Json) (w w1 : World) (e : Thrown) :
  getAccessToken net env w = (Throw e, w1) ->
  listForms localeCompare URL net fuel env w
  = (Throw (Error ("Network error while fetching forms from "
                   +:+ EnvConfig.name env)), w1)
  /\ downloadForm net env formId w
     = (Throw (Error ("Network error while downloading form " +:+ formId
                      +:+ " from " +:+ EnvConfig.name env)), w1)
  /\ uploadForm net env formData w
     = (Throw (Error ("Network error while uploading form " +:+ dquote
                      +:+ template (Json.name formData) +:+ dquote +:+ " to "
                      +:+ EnvConfig.name env)), w1).
Proof.
  intros Hget.
  destruct (getAccessToken_throws_plain_Error _ _ _ _ _ Hget) as (m & ->).
  assert (Hc : createApiClient net env w = (Throw (Error m), w1))
    by (now rewrite createApiClient_run, Hget).
  unfold listForms, downloadForm, uploadForm.
  rewrite !(try_catch_Throw _ _ _ _ _ (bind_Throw _ _ _ _ _ Hc)).
  repeat split.
Qed.

(** Invalid credentials, seen from [listForms]. *)
Lemma token_failure_is_reported_as_network_error_witness :
  fst (listForms bytewise sample_URL unauthorized 3 devUS world0)
  = Throw (Error "Network error while fetching forms from Dev US")
  /\ sent (snd (uploadForm unauthorized devUS login_form world0))
     = [tokenRequest devUS].
Proof.
  destruct (token_failure_is_reported_as_network_error bytewise sample_URL
              unauthorized 3 devUS "f-1" login_form world0
              (snd (getAccessToken unauthorized devUS world0))
              (Error "Authentication failed for Dev US: Invalid client credentials"))
    as (Hlist & _ & Hup).
  - vm_compute. reflexivity.
  - rewrite Hlist, Hup. split; reflexivity.
Defined.

(** X9. [downloadForm] on the happy path: with a token [t] and an API
    that answers the request, it sends exactly one request, a [GET] of
    [/environments/<envId>/forms/<formId>] under
    [https://api.pingone.<tld>/v1] with [Authorization: Bearer t] and a
    30 second timeout, and returns the body of the response as it is. *)
Theorem downloadForm_returns_payload (net : Platform) (env : EnvConfig)
    (formId : string) (w w1 : World) (t : string) (r : Response Json) :
  getAccessToken net env w = (Return t, w1) ->
  let config :=
    {| method := GET;
       baseURL := Some ("https://api.pingone."
                        +:+ tld_string (EnvConfig.tld env) +:+ "/v1");
       url := "/environments/" +:+ EnvConfig.envId env +:+ "/forms/"
              +:+ formId;
       headers := [("Authorization", "Bearer " +:+ t);
                   ("Content-Type", "application/json")];
       data := NoBody;
       timeout := 30000;
       _retryCount := None |} in
  wire (api_server net (sent w1) config) = Resolved r ->
  downloadForm net env formId w
  = (Return (body r),
     request_sent w1 config (elapsed (api_server net (sent w1) config))).
Proof.
  intros Hget config Hw.
  assert (Hc : createApiClient net env w = (Return (apiClient env t), w1))
    by (now rewrite createApiClient_run, Hget).
  unfold downloadForm. apply try_catch_Return.
  rewrite (bind_Return _ _ _ _ _ Hc).
  unfold client_get, client_fuel.
  now rewrite (bind_Return _ _ _ _ _ (client_call_resolved _ _ _ _ _ Hw)).
Qed.

(** X10. [uploadForm] on the happy path: with a token [t] and an API
    that answers the request, it sends exactly one request, a [POST] to
    [/environments/<envId>/forms] whose body is the payload it was
    given, and returns the body of the response as it is. *)
Theorem uploadForm_returns_response (net : Platform) (env : EnvConfig)
    (formData : Json) (w w1 : World) (t : string) (r : Response Json) :
  getAccessToken net env w = (Return t, w1) ->
  let config :=
    {| method := POST;
       baseURL := Some ("https://api.pingone."
                        +:+ tld_string (EnvConfig.tld env) +:+ "/v1");
       url := "/environments/" +:+ EnvConfig.envId env +:+ "/forms";
       headers := [("Authorization", "Bearer " +:+ t);
                   ("Content-Type", "application/json")];
       data := Object formData;
       timeout := 30000;
       _retryCount := None |} in
  wire (api_server net (sent w1) config) = Resolved r ->
  uploadForm net env formData w
  = (Return (body r),
     request_sent w1 config (elapsed (api_server net (sent w1) config))).
Proof.
  intros Hget config Hw.
  assert (Hc : createApiClient net env w = (Return (apiClient env t), w1))
    by (now rewrite createApiClient_run, Hget).
  unfold uploadForm. apply try_catch_Return.
  rewrite (bind_Return _ _ _ _ _ Hc).
  unfold client_post, client_fuel.
  now rewrite (bind_Return _ _ _ _ _ (client_call_resolved _ _ _ _ _ Hw)).
Qed.

(** The second form of the sample platform, and an upload that the
    platform accepts once the token request has been seen. *)
Lemma downloadForm_returns_payload_witness :
  fst (downloadForm missing_f1 devUS "f-2" world0) = Return login_form
  /\ length (sent (snd (downloadForm missing_f1 devUS "f-2" world0))) = 2%nat.
Proof.
  rewrite (downloadForm_returns_payload missing_f1 devUS "f-2" world0
             (snd (getAccessToken missing_f1 devUS world0)) "tok-1"
             {| status := 200; body := login_form |}).
  - split; reflexivity.
  - vm_compute. reflexivity.
  - vm_compute. reflexivity.
Defined.

Lemma uploadForm_returns_response_witness :
  fst (uploadForm missing_f1 devUS login_form world0) = Return login_form.
Proof.
  rewrite (uploadForm_returns_response missing_f1 devUS login_form world0
             (snd (getAccessToken missing_f1 devUS world0)) "tok-1"
             {| status := 200; body := login_form |}).
  - reflexivity.
  - vm_compute. reflexivity.
  - vm_compute. reflexivity.
Defined.

(** X11. The two rejections only [uploadForm] distinguishes, for a
    request that was sent with token [t]: neither is retried (one
    request, no timer); status 400 raises "Invalid form data for" with
    the form's name and the platform's [message] (the transport's
    message when the body has none); status 409 raises "already exists
    in" with the form's name and the environment's name. *)
Theorem uploadForm_rejections (net : Platform) (env : EnvConfig)
    (formData : Json) (w w1 : World) (t : string)
    (r : Response (option Json)) :
  getAccessToken net env w = (Return t, w1) ->
  let config :=
    client_config (apiClient env t) POST
      ("/environments/" +:+ EnvConfig.envId env +:+ "/forms")
      (Object formData) in
  let w2 := request_sent w1 config (elapsed (api_server net (sent w1) config)) in
  wire (api_server net (sent w1) config) = BadStatus r ->
  (status r = 400%Z ->
   uploadForm net env formData w
   = (Throw (Error (invalid_form_data formData
                      (or_else (response_message (Some r))
                               "Request failed with status code 400"))), w2))
  /\ (status r = 409%Z ->
      uploadForm net env formData w
      = (Throw (Error ("Form " +:+ dquote +:+ template (Json.name formData)
                       +:+ dquote +:+ " already exists in "
                       +:+ EnvConfig.name env +:+ " or there's a conflict")),
         w2)).
Proof.
  intros Hget config w2 Hw.
  assert (Hc : createApiClient net env w = (Return (apiClient env t), w1))
    by (now rewrite createApiClient_run, Hget).
  assert (Hfail : forall code, status r = code -> (code < 429)%Z ->
            uploadForm net env formData w
            = uploadForm_catch env formData
                (AxiosError ("Request failed with status code "
                             +:+ pretty (status r))
                   (Some (set_retryCount config (retryCount config)))
                   (Some r)) w2).
  { intros code Hs Hlt. unfold uploadForm. apply try_catch_Throw.
    rewrite (bind_Return _ _ _ _ _ Hc). apply bind_Throw.
    unfold client_post, client_fuel.
    apply (client_call_not_retried _ _ _ _ _ Hw).
    unfold retry_condition. lia. }
  split; intros Hs.
  - rewrite (Hfail 400%Z Hs ltac:(lia)).
    unfold uploadForm_catch. simpl. rewrite Hs. reflexivity.
  - rewrite (Hfail 409%Z Hs ltac:(lia)).
    unfold uploadForm_catch. simpl. rewrite Hs. reflexivity.
Qed.

(** A payload the platform rejects with an explanation. *)
Lemma uploadForm_rejections_witness :
  fst (uploadForm rejects_payload devUS login_form world0)
  = Throw (Error (invalid_form_data login_form "name must not be blank"))
  /\ timers (snd (uploadForm rejects_payload devUS login_form world0)) = [].
Proof.
  destruct (uploadForm_rejections rejects_payload devUS login_form world0
              (snd (getAccessToken rejects_payload devUS world0)) "tok-1"
              {| status := 400;
                 body := Some {| Json._embedded_forms := None;
                                 Json._links_next_href := None;
                                 Json.message := Some "name must not be blank";
                                 Json.error_description := None;
                                 Json.name := None; Json.props := [] |} |})
    as [H400 _].
  - vm_compute. reflexivity.
  - reflexivity.
  - rewrite (H400 eq_refl). split; reflexivity.
Defined.

Section ListingTrace.
Variable localeCompare : string -> string -> Z.
Variable URL : string -> option (string * string).

(** The loop sends one request per page and nothing else. *)
Lemma listForms_loop_trace net client history url pages :
  Listing URL net client history url pages ->
  forall fuel forms w,
    sent w = history ->
    (length pages <= fuel)%nat ->
    exists w' requests,
      listForms_loop URL net client fuel forms url w
      = (Return (forms ++ flat_map page_forms pages)%list, w')
      /\ sent w' = (sent w ++ requests)%list
      /\ length requests = length pages
      /\ Forall (fun config =>
                   exists u, config = client_config client GET u NoBody)
                requests
      /\ (forall u, or_null url = Some u ->
                    head requests = Some (client_config client GET u NoBody))
      /\ timers w' = timers w
      /\ tokenCache w' = tokenCache w.
Proof.
  induction 1 as [history url Hurl
                 |history url u code data next pages Hurl Hw Hnext _ IH];
    intros fuel forms w Hsent Hfuel.
  - exists w, []. rewrite !app_nil_r.
    repeat split; try constructor.
    + destruct fuel; simpl; rewrite Hurl; reflexivity.
    + intros u Hu. congruence.
  - destruct fuel as [|fuel]; [simpl in Hfuel; lia|].
    simpl in Hfuel. apply le_S_n in Hfuel. subst history.
    destruct (IH fuel (forms ++ page_forms data)%list
                (request_sent w (client_config client GET u NoBody)
                   (elapsed (api_server net (sent w)
                               (client_config client GET u NoBody))))
                eq_refl Hfuel)
      as (w' & requests & Hloop & Hs & Hlen & Hall & _ & Ht & Hc).
    exists w', (client_config client GET u NoBody :: requests).
    rewrite (listForms_loop_turn _ _ _ _ _ _ _ _ _ _ Hurl
               (client_call_resolved _ _ _ _ _ Hw)).
    simpl body. rewrite Hnext, Hloop, <- app_assoc.
    repeat split.
    + rewrite Hs. simpl. now rewrite <- app_assoc.
    + simpl. now rewrite Hlen.
    + constructor; [eauto | exact Hall].
    + intros u' Hu'. simpl. congruence.
    + exact Ht.
    + exact Hc.
Qed.

(** X12. What a listing costs: with a token [t], when the platform
    serves the pages of the listing, [listForms] sends one [GET] per
    page and nothing else, the first for [/environments/<envId>/forms],
    all through the one client built for [t]; it starts no timer and
    leaves the token cache as [getAccessToken] left it. *)
Theorem listForms_requests_each_page_once (net : Platform) (env : EnvConfig)
    (fuel : nat) (w w1 : World) (t : string) (pages : list Json) :
  getAccessToken net env w = (Return t, w1) ->
  Listing URL net (apiClient env t) (sent w1)
    (Some ("/environments/" +:+ EnvConfig.envId env +:+ "/forms")) pages ->
  (length pages <= fuel)%nat ->
  let w' := snd (listForms localeCompare URL net fuel env w) in
  exists requests,
    sent w' = (sent w1 ++ requests)%list
    /\ length requests = length pages
    /\ Forall (fun config =>
                 exists u, config = client_config (apiClient env t) GET u NoBody)
              requests
    /\ head requests
       = Some (client_config (apiClient env t) GET
                 ("/environments/" +:+ EnvConfig.envId env +:+ "/forms") NoBody)
    /\ timers w' = timers w1
    /\ tokenCache w' = tokenCache w1.
Proof.
  intros Hget Hl Hfuel w'. subst w'.
  assert (Hc : createApiClient net env w = (Return (apiClient env t), w1))
    by (now rewrite createApiClient_run, Hget).
  destruct (listForms_loop_trace _ _ _ _ _ Hl fuel [] w1 eq_refl Hfuel)
    as (w' & requests & Hloop & Hs & Hlen & Hall & Hhead & Ht & Hk).
  exists requests. unfold listForms.
  erewrite try_catch_Return
    by (rewrite (bind_Return _ _ _ _ _ Hc);
        rewrite (bind_Return _ _ _ _ _ Hloop); reflexivity).
  simpl. repeat split; try assumption.
  apply Hhead. reflexivity.
Qed.
End ListingTrace.

(** The three pages of the sample listing: three requests after the
    token request. *)
Lemma listForms_requests_each_page_once_witness :
  length (sent (snd (listForms bytewise sample_URL paged 3 devUS world0)))
  = 4%nat.
Proof.
  destruct (listForms_requests_each_page_once bytewise sample_URL
              paged devUS 3 world0
              (snd (getAccessToken paged devUS world0)) "tok-1"
              [page1; page2; page3])
    as (requests & Hs & Hlen & _).
  - vm_compute. reflexivity.
  - eapply Listing_page;
      [vm_compute; reflexivity | vm_compute; reflexivity
      | vm_compute; reflexivity |].
    eapply Listing_page;
      [vm_compute; reflexivity | vm_compute; reflexivity
      | vm_compute; reflexivity |].
    eapply Listing_page;
      [vm_compute; reflexivity | vm_compute; reflexivity
      | vm_compute; reflexivity |].
    apply Listing_end. reflexivity.
  - simpl. lia.
  - rewrite Hs, length_app, Hlen. reflexivity.
Defined.

(** ** forms.ts: export and import *)






Section ExportFacts.
Variable saveFormToFile : Json -> string -> Promise string.
Variable sanitize : string -> string.

Lemma downloadForms_step_adds net env form files w files' w' :
  downloadForms_step saveFormToFile sanitize net env form files w
  = (Return files', w') ->
  files' = files
  \/ exists filePath, filePath <> EmptyString
                      /\ files' = (files ++ [filePath])%list.
Proof.
  unfold downloadForms_step, try_catch, bind.
  destruct (downloadForm net env (FormSummary.id form) w) as [[raw|e|] w1];
    try discriminate.
  destruct (saveFormToFile _ _ w1) as [[filePath|e|] w2]; try discriminate.
  destruct (String.eqb_spec filePath EmptyString) as [->|Hne].
  - intros [= <- _]. now left.
  - intros [= <- _]. right. eauto.
Qed.

Lemma downloadForms_loop_adds net env forms :
  forall files w files' w',
    downloadForms_loop saveFormToFile sanitize net env forms files w
    = (Return files', w') ->
    exists added,
      files' = (files ++ added)%list
      /\ (length added <= length forms)%nat
      /\ Forall (fun filePath => filePath <> EmptyString) added.
Proof.
  induction forms as [|form forms IH]; intros files w files' w'.
  - intros [= <- _]. exists []. rewrite app_nil_r.
    split; [reflexivity|]. split; [simpl; lia | constructor].
  - simpl. unfold bind.
    destruct (downloadForms_step _ _ net env form files w)
      as [[files1|e|] w1] eqn:Hstep; try discriminate.
    intros Hloop. destruct (IH _ _ _ _ Hloop) as (added & -> & Hlen & Hall).
    destruct (downloadForms_step_adds _ _ _ _ _ _ _ Hstep)
      as [->|(filePath & Hne & ->)].
    + exists added.
      split; [reflexivity|]. split; [simpl; lia | exact Hall].
    + exists (filePath :: added). rewrite <- app_assoc.
      split; [reflexivity|]. split; [simpl; lia | now constructor].
Qed.

(** X14. What a finished export reports: when [downloadForms] returns,
    it returns at most one path per selected form and never an empty
    one (a form whose file the user declined to overwrite contributes
    nothing). *)
Theorem downloadForms_reports_saved_files (net : Platform) (env : EnvConfig)
    (forms : list FormSummary) (w w' : World) (files : list string) :
  downloadForms saveFormToFile sanitize net env forms w = (Return files, w') ->
  (length files <= length forms)%nat
  /\ Forall (fun filePath => filePath <> EmptyString) files.
Proof.
  unfold downloadForms. intros H.
  destruct (downloadForms_loop_adds _ _ _ _ _ _ _ H) as (added & -> & Hl & Ha).
  split; assumption.
Qed.
End ExportFacts.

(** A save that skips [Billing.json], as when the user keeps the file. *)
Lemma downloadForms_reports_saved_files_witness :
  (length ["forms/Login.json"] <= length [form_f2; form_f1])%nat
  /\ Forall (fun filePath => filePath <> EmptyString) ["forms/Login.json"].
Proof.
  apply (downloadForms_reports_saved_files keep_billing sample_sanitize
           (always_serves login_form) devUS [form_f2; form_f1] world0
           (snd (downloadForms keep_billing sample_sanitize
                   (always_serves login_form) devUS [form_f2; form_f1]
                   world0))).
  vm_compute. reflexivity.
Defined.

Section ImportFacts.
Variable loadFormFromFile : string -> Promise Json.

Lemma load_loop_all_fail localForms :
  (forall localForm w,
     localForm ∈ localForms ->
     exists e w', loadFormFromFile (LocalFormFile.filename localForm) w
                  = (Throw e, w')) ->
  forall failed0 w,
  exists failed' w',
    load_loop loadFormFromFile localForms ([], failed0) w
    = (Return ([], (failed0 ++ failed')%list), w')
    /\ map failure_filename failed' = map LocalFormFile.filename localForms
    /\ Forall (fun f => startsWith (failure_error f) "Failed to load file: "
                        = true) failed'.
Proof.
  induction localForms as [|localForm localForms IH]; intros Hall failed0 w.
  - exists [], w. rewrite app_nil_r. repeat split. constructor.
  - destruct (Hall localForm w) as (e & w1 & Hload); [left|].
    destruct (IH (fun f w Hin => Hall f w (list_elem_of_further _ _ _ Hin))
                (failed0 ++
                 [{| failure_filename := LocalFormFile.filename localForm;
                     failure_error := "Failed to load file: "
                                      +:+ error_message e |}])%list w1)
      as (failed' & w' & Hloop & Hnames & Hprefix).
    eexists (_ :: failed'), w'. split; [|split].
    + simpl. unfold bind, load_step, try_catch, bind. rewrite Hload.
      simpl. rewrite Hloop, <- app_assoc. reflexivity.
    + simpl. now rewrite Hnames.
    + constructor; [apply startsWith_app | exact Hprefix].
Qed.

(** X15. An import in which no file can be read (an empty selection
    included) asks for no name and uploads nothing: whatever the prompt
    and the platform would do, [uploadForms] returns no success and one
    failure per file, in the order of the selection, each reading
    "Failed to load file: ..." . *)
Theorem uploadForms_nothing_readable (env : EnvConfig)
    (localForms : list LocalFormFile) (w : World) :
  (forall localForm w,
     localForm ∈ localForms ->
     exists e w', loadFormFromFile (LocalFormFile.filename localForm) w
                  = (Throw e, w')) ->
  exists failures w',
    (forall promptForMultipleFormNames net,
       uploadForms loadFormFromFile promptForMultipleFormNames net env
                   localForms w
       = (Return {| successful := []; failed := failures |}, w'))
    /\ map failure_filename failures = map LocalFormFile.filename localForms
    /\ Forall (fun f => startsWith (failure_error f) "Failed to load file: "
                        = true) failures.
Proof.
  intros Hall.
  destruct (load_loop_all_fail localForms Hall [] w)
    as (failures & w' & Hloop & Hnames & Hprefix).
  exists failures, w'. split; [|split; assumption].
  intros prompt net. unfold uploadForms.
  now rewrite (bind_Return _ _ _ _ _ Hloop).
Qed.
End ImportFacts.

(** A selection of one unreadable file, on a platform that would accept
    any upload. *)
Lemma uploadForms_nothing_readable_witness :
  exists failures w',
    (forall promptForMultipleFormNames net,
       uploadForms sample_load promptForMultipleFormNames net devUS
                   [local_file "broken.json" "broken"] world0
       = (Return {| successful := []; failed := failures |}, w'))
    /\ map failure_filename failures = ["broken.json"]
    /\ Forall (fun f => startsWith (failure_error f) "Failed to load file: "
                        = true) failures.
Proof.
  apply (uploadForms_nothing_readable sample_load devUS
           [local_file "broken.json" "broken"] world0).
  intros localForm w Hin. apply list_elem_of_singleton in Hin as ->.
  do 2 eexists. reflexivity.
Defined.

Lemma or_else_chosen (s b : string) :
  s <> EmptyString -> or_else (Some s) b = s.
Proof.
  intros Hne. unfold or_else.
  now destruct (String.eqb_spec s EmptyString).
Qed.

Lemma uploadForm_world net env formData w t w1 :
  getAccessToken net env w = (Return t, w1) ->
  snd (uploadForm net env formData w)
  = snd (client_call net client_fuel
           (client_config (apiClient env t) POST
              ("/environments/" +:+ EnvConfig.envId env +:+ "/forms")
              (Object formData)) w1).
Proof.
  intros Hget.
  assert (Hc : createApiClient net env w = (Return (apiClient env t), w1))
    by (now rewrite createApiClient_run, Hget).
  unfold uploadForm, try_catch. rewrite (bind_Return _ _ _ _ _ Hc).
  unfold bind, client_post.
  destruct (client_call _ _ _ w1) as [[r|e|] w2]; try reflexivity.
  now destruct (uploadForm_catch_names_environment env formData e w2)
    as (m & -> & _).
Qed.

Lemma uploadForms_step_world net env nameMap localForm formData acc w :
  snd (uploadForms_step net env nameMap (localForm, formData) acc w)
  = snd (uploadForm net env
           (with_name formData
              (or_else (nameMap !! LocalFormFile.filename localForm)
                 (or_else (Json.name formData)
                          (LocalFormFile.name localForm)))) w).
Proof.
  unfold uploadForms_step, try_catch, bind.
  destruct (uploadForm _ _ _ w) as [[r|e|] w1]; reflexivity.
Qed.

(** X16. The name a form is uploaded under.  For one file of an import,
    with a token [t]: every request the step sends is the [POST] of the
    file's form with its [name] replaced and its other properties
    untouched, at most four times.  The name is the one entered for the
    file when that is not empty, else the name inside the file when
    that is not empty, else the name of the file's entry. *)
Theorem uploaded_form_carries_chosen_name (net : Platform) (env : EnvConfig)
    (nameMap : gmap string string) (localForm : LocalFormFile)
    (formData : Json) (acc : UploadResult) (w w1 : World) (t : string) :
  getAccessToken net env w = (Return t, w1) ->
  let formName :=
    or_else (nameMap !! LocalFormFile.filename localForm)
            (or_else (Json.name formData) (LocalFormFile.name localForm)) in
  let config :=
    client_config (apiClient env t) POST
      ("/environments/" +:+ EnvConfig.envId env +:+ "/forms")
      (Object (with_name formData formName)) in
  (exists k,
     (k <= 3)%nat
     /\ sent (snd (uploadForms_step net env nameMap (localForm, formData)
                     acc w))
        = (sent w1 ++ config :: map (set_retryCount config) (seq 1 k))%list)
  /\ Json.name (with_name formData formName) = Some formName
  /\ Json.props (with_name formData formName) = Json.props formData
  /\ (forall entered,
        nameMap !! LocalFormFile.filename localForm = Some entered ->
        entered <> EmptyString -> formName = entered)
  /\ (forall inside,
        or_null (nameMap !! LocalFormFile.filename localForm) = None ->
        Json.name formData = Some inside ->
        inside <> EmptyString -> formName = inside)
  /\ (or_null (nameMap !! LocalFormFile.filename localForm) = None ->
      or_null (Json.name formData) = None ->
      formName = LocalFormFile.name localForm).
Proof.
  intros Hget formName config. split; [|split; [|split; [|split; [|split]]]];
    try reflexivity.
  - rewrite uploadForms_step_world, (uploadForm_world _ _ _ _ _ _ Hget).
    destruct (client_call_trace net client_fuel config w1)
      as (k & Hk & Hsent & _).
    { unfold client_fuel, MAX_RETRIES. simpl. lia. }
    exists k. split; [exact Hk | exact Hsent].
  - intros entered Hl Hne. subst formName. rewrite Hl.
    now apply or_else_chosen.
  - intros inside Hn Hi Hne. subst formName. rewrite Hi.
    rewrite (or_else_chosen inside _ Hne).
    unfold or_null, or_else in *.
    destruct (nameMap !! LocalFormFile.filename localForm) as [s|];
      [|reflexivity].
    now destruct (String.eqb s EmptyString).
  - intros Hn Hi. subst formName. unfold or_null, or_else in *.
    destruct (nameMap !! LocalFormFile.filename localForm) as [s|];
      [destruct (String.eqb s EmptyString); [|discriminate]|];
      (destruct (Json.name formData) as [s'|];
       [destruct (String.eqb s' EmptyString); [reflexivity|discriminate]
       |reflexivity]).
Qed.

(** The file [a.json] uploaded under the name entered for it. *)
Lemma uploaded_form_carries_chosen_name_witness :
  or_else (({[ "a.json" := "Renamed" ]} : gmap string string) !! "a.json")
          (or_else (Json.name login_form) "a")
  = "Renamed".
Proof.
  destruct (uploaded_form_carries_chosen_name (always_serves login_form) devUS
              {[ "a.json" := "Renamed" ]} (local_file "a.json" "a")
              login_form {| successful := []; failed := [] |} world0
              (snd (getAccessToken (always_serves login_form) devUS world0))
              "tok-1")
    as (_ & _ & _ & Hentered & _).
  - vm_compute. reflexivity.
  - apply (Hentered "Renamed"); [vm_compute; reflexivity | discriminate].
Defined.

Section ImportOrder.
Variable loadFormFromFile : string -> Promise Json.
Variable promptForMultipleFormNames :
  list (LocalFormFile * Json) -> Promise (gmap string string).

Hypothesis load_settles :
  forall filename w, fst (loadFormFromFile filename w) <> Pending.
Hypothesis prompt_returns :
  forall formsWithData w,
  exists nameMap w',
    promptForMultipleFormNames formsWithData w = (Return nameMap, w').





End ImportOrder.


(** ** config.ts *)

Example validateEnvironment_sample :
  validateEnvironment (env_object devUS) 0 = Accepted devUS
  /\ validateEnvironment (JsObject {[ "name" := JsString "x" ]}) 2
     = Rejected "Environment at index 2 is missing required field: envId"
  /\ validateEnvironment
       (JsObject (<["tld" := JsString "de"]> {[ "name" := JsString "x";
          "envId" := JsString "zz"; "clientId" := JsString "c";
          "clientSecret" := JsString "s" ]})) 1
     = Rejected "Environment at index 1 has invalid tld: de. Must be one of: com, eu, ca, asia, com.au, sg".
Proof. vm_compute. repeat split; reflexivity. Qed.

Lemma string_field_spec envObj field s :
  string_field envObj field = Some s
  <-> envObj !! field = Some (JsString s) /\ s <> EmptyString.
Proof.
  unfold string_field. destruct (envObj !! field) as [[s'|]|].
  - destruct (String.eqb_spec s' EmptyString) as [->|Hne]; split.
    + discriminate.
    + intros [[= <-] H]. now destruct H.
    + intros [= <-]. auto.
    + now intros [[= <-] _].
  - split; [discriminate | now intros [[=] _]].
  - split; [discriminate | now intros [[=] _]].
Qed.

Lemma field_string_spec envObj field s :
  string_field envObj field = Some s -> field_string envObj field = s.
Proof. unfold field_string. now intros ->. Qed.

Lemma no_field_missing envObj :
  find (field_missing envObj) requiredFields = None
  <-> Forall (fun field => is_Some (string_field envObj field)) requiredFields.
Proof.
  unfold requiredFields, field_missing. simpl.
  rewrite !Forall_cons.
  destruct (string_field envObj "name");
    destruct (string_field envObj "envId");
    destruct (string_field envObj "clientId");
    destruct (string_field envObj "clientSecret");
    destruct (string_field envObj "tld");
    split; try discriminate; try (intros _; repeat split; eauto; constructor);
    intros (H1 & H2 & H3 & H4 & H5 & _);
    try (now destruct H1); try (now destruct H2); try (now destruct H3);
    try (now destruct H4); now destruct H5.
Qed.

Lemma parse_tld_spec s region :
  parse_tld s = Some region <-> s = tld_string region.
Proof.
  split.
  - intros H. apply find_some in H as [_ H]. now apply String.eqb_eq in H.
  - intros ->. now destruct region.
Qed.

Lemma validateEnvironment_sound envObj index env :
  validateEnvironment (JsObject envObj) index = Accepted env ->
  envObj !! "name" = Some (JsString (EnvConfig.name env))
  /\ envObj !! "envId" = Some (JsString (EnvConfig.envId env))
  /\ envObj !! "clientId" = Some (JsString (EnvConfig.clientId env))
  /\ envObj !! "clientSecret" = Some (JsString (EnvConfig.clientSecret env))
  /\ envObj !! "tld" = Some (JsString (tld_string (EnvConfig.tld env)))
  /\ well_formed env.
Proof.
  unfold validateEnvironment, well_formed.
  destruct (find _ _) as [field|] eqn:Hfind; [discriminate|].
  apply no_field_missing in Hfind. unfold requiredFields in Hfind.
  rewrite !Forall_cons in Hfind.
  destruct Hfind as ([n Hn] & [i Hi] & [c Hc] & [k Hk] & [t Ht] & _).
  rewrite (field_string_spec _ _ _ Hn), (field_string_spec _ _ _ Hi),
    (field_string_spec _ _ _ Hc), (field_string_spec _ _ _ Hk),
    (field_string_spec _ _ _ Ht).
  destruct (parse_tld t) as [region|] eqn:Hp; [|discriminate].
  apply parse_tld_spec in Hp as ->.
  destruct (uuidRegex_test i) eqn:Hu; [|discriminate].
  intros [= <-]. simpl.
  apply string_field_spec in Hn as [Hn Hn'], Hi as [Hi _],
    Hc as [Hc Hc'], Hk as [Hk Hk'], Ht as [Ht _].
  repeat split; assumption.
Qed.

Lemma validateEnvironment_complete envObj index env :
  envObj !! "name" = Some (JsString (EnvConfig.name env)) ->
  envObj !! "envId" = Some (JsString (EnvConfig.envId env)) ->
  envObj !! "clientId" = Some (JsString (EnvConfig.clientId env)) ->
  envObj !! "clientSecret" = Some (JsString (EnvConfig.clientSecret env)) ->
  envObj !! "tld" = Some (JsString (tld_string (EnvConfig.tld env))) ->
  well_formed env ->
  validateEnvironment (JsObject envObj) index = Accepted env.
Proof.
  unfold validateEnvironment, well_formed.
  intros Hn Hi Hc Hk Ht (Hn' & Hu & Hc' & Hk').
  assert (Hi' : EnvConfig.envId env <> EmptyString).
  { intros Heq. rewrite Heq in Hu. discriminate. }
  assert (Ht' : tld_string (EnvConfig.tld env) <> EmptyString)
    by (destruct (EnvConfig.tld env); discriminate).
  pose proof (proj2 (string_field_spec _ _ _) (conj Hn Hn')) as Sn.
  pose proof (proj2 (string_field_spec _ _ _) (conj Hi Hi')) as Si.
  pose proof (proj2 (string_field_spec _ _ _) (conj Hc Hc')) as Sc.
  pose proof (proj2 (string_field_spec _ _ _) (conj Hk Hk')) as Sk.
  pose proof (proj2 (string_field_spec _ _ _) (conj Ht Ht')) as St.
  assert (Hfind : find (field_missing envObj) requiredFields = None).
  { apply no_field_missing. unfold requiredFields.
    repeat constructor; eauto. }
  rewrite Hfind.
  rewrite (field_string_spec _ _ _ Sn), (field_string_spec _ _ _ Si),
    (field_string_spec _ _ _ Sc), (field_string_spec _ _ _ Sk),
    (field_string_spec _ _ _ St).
  rewrite (proj2 (parse_tld_spec _ _) eq_refl), Hu.
  now destruct env.
Qed.

(** X18. What [validateEnvironment] accepts.  An object is accepted as
    the configuration [env] exactly when its five required properties
    are strings, [name], [clientId] and [clientSecret] not empty,
    [envId] of the UUID format, [tld] one of the six regions, and [env]
    holds those strings.  In particular the client id is not checked
    for the UUID format, and other properties are ignored. *)
Theorem validateEnvironment_accepts_iff (envObj : gmap string JsValue)
    (index : nat) (env : EnvConfig) :
  validateEnvironment (JsObject envObj) index = Accepted env
  <-> envObj !! "name" = Some (JsString (EnvConfig.name env))
      /\ envObj !! "envId" = Some (JsString (EnvConfig.envId env))
      /\ envObj !! "clientId" = Some (JsString (EnvConfig.clientId env))
      /\ envObj !! "clientSecret"
         = Some (JsString (EnvConfig.clientSecret env))
      /\ envObj !! "tld"
         = Some (JsString (tld_string (EnvConfig.tld env)))
      /\ well_formed env.
Proof.
  split.
  - apply validateEnvironment_sound.
  - intros (Hn & Hi & Hc & Hk & Ht & Hw).
    now apply validateEnvironment_complete.
Qed.

(** The entry of the README and an entry without a secret. *)
Lemma validateEnvironment_accepts_iff_witness :
  validateEnvironment (env_object devUS) 0 = Accepted devUS
  /\ validateEnvironment
       (JsObject (<["clientSecret" := JsOther]>
                    {[ "name" := JsString "Dev US";
                       "envId" := JsString "11111111-2222-3333-4444-555555555555";
                       "clientId" := JsString "c"; "tld" := JsString "com" ]}))
       0
     <> Accepted devUS.
Proof.
  split.
  - apply validateEnvironment_accepts_iff.
    repeat split; try discriminate; vm_compute; reflexivity.
  - intros H. apply validateEnvironment_accepts_iff in H as (_ & _ & _ & H & _).
    vm_compute in H. discriminate.
Defined.

Lemma append_assoc (a b c : string) : (a +:+ b) +:+ c = a +:+ b +:+ c.
Proof.
  induction a as [|x a IH]; [reflexivity|]. now rewrite !append_cons, IH.
Qed.

Lemma validateEnvironment_error_names_index env index message :
  validateEnvironment env index = Rejected message ->
  startsWith message ("Environment at index " +:+ pretty index) = true.
Proof.
  unfold validateEnvironment. destruct env as [|envObj].
  - intros [= <-]. rewrite <- append_assoc. apply startsWith_app.
  - destruct (find _ _).
    + intros [= <-]. rewrite <- append_assoc. apply startsWith_app.
    + destruct (parse_tld _).
      * destruct (uuidRegex_test _); [discriminate|].
        intros [= <-]. rewrite <- append_assoc. apply startsWith_app.
      * intros [= <-]. rewrite <- append_assoc. apply startsWith_app.
Qed.

Lemma validateEnvironment_well_formed env index config :
  validateEnvironment env index = Accepted config -> well_formed config.
Proof.
  destruct env as [|envObj]; [discriminate|].
  intros H. now apply validateEnvironment_sound in H.
Qed.

Lemma validate_from_accepts items :
  forall index configs,
    validate_from index items = Accepted configs ->
    length configs = length items /\ Forall well_formed configs.
Proof.
  induction items as [|env items IH]; intros index configs; simpl.
  - intros [= <-]. split; [reflexivity | constructor].
  - destruct (validateEnvironment env index) as [config|] eqn:Hv;
      [|discriminate].
    destruct (validate_from (S index) items) as [rest|] eqn:Hr;
      [|discriminate].
    intros [= <-]. destruct (IH _ _ Hr) as [Hl Hw]. split.
    + simpl. now rewrite Hl.
    + constructor; [|exact Hw].
      eapply validateEnvironment_well_formed; eassumption.
Qed.

Lemma validate_from_rejects valid :
  forall index bad rest message,
    (forall k item, valid !! k = Some item ->
                    exists config,
                      validateEnvironment item (index + k) = Accepted config) ->
    validateEnvironment bad (index + length valid) = Rejected message ->
    validate_from index (valid ++ bad :: rest) = Rejected message.
Proof.
  induction valid as [|env valid IH]; intros index bad rest message Hv Hb.
  - simpl in *. rewrite Nat.add_0_r in Hb. now rewrite Hb.
  - simpl. destruct (Hv 0%nat env eq_refl) as [config Hc].
    rewrite Nat.add_0_r in Hc. rewrite Hc.
    rewrite (IH (S index) bad rest message); [reflexivity| |].
    + intros k item Hk. destruct (Hv (S k) item Hk) as [c H].
      exists c. now rewrite Nat.add_succ_comm.
    + simpl in Hb. now rewrite Nat.add_succ_comm.
Qed.

Lemma validate_from_round_trip configs :
  Forall well_formed configs ->
  forall index,
    validate_from index (map env_object configs) = Accepted configs.
Proof.
  induction 1 as [|config configs Hw _ IH]; intros index; [reflexivity|].
  assert (Hv : validateEnvironment (env_object config) index = Accepted config).
  { apply validateEnvironment_complete;
      try exact Hw; vm_compute; reflexivity. }
  cbn [map validate_from]. rewrite Hv, IH. reflexivity.
Qed.

(** X19. Which entry [loadConfig] complains about: when the entries
    before position [i] of the array are valid and the entry at [i] is
    not, the error is that entry's, it names the index [i], and it is
    wrapped as "Error reading environments.json: ...".  Later entries
    are not looked at. *)
Theorem loadConfig_reports_first_invalid (valid : list Unknown)
    (bad : Unknown) (rest : list Unknown) (message : string) :
  (forall k item, valid !! k = Some item ->
                  exists config, validateEnvironment item k = Accepted config) ->
  validateEnvironment bad (length valid) = Rejected message ->
  loadConfig (Content (JsArray (valid ++ bad :: rest)))
  = Rejected ("Error reading environments.json: " +:+ message)
  /\ startsWith message ("Environment at index " +:+ pretty (length valid))
     = true.
Proof.
  intros Hv Hb. split.
  - unfold loadConfig, validateAndParseEnvironments.
    now rewrite (validate_from_rejects valid 0 bad rest message Hv Hb).
  - eapply validateEnvironment_error_names_index, Hb.
Qed.

(** A valid entry followed by a string. *)
Lemma loadConfig_reports_first_invalid_witness :
  loadConfig (Content (JsArray [env_object devUS; NotAnObject;
                                env_object devUS_eu]))
  = Rejected ("Error reading environments.json: "
              +:+ "Environment at index 1 is not a valid object")
  /\ startsWith "Environment at index 1 is not a valid object"
       ("Environment at index " +:+ pretty 1%nat) = true.
Proof.
  apply (loadConfig_reports_first_invalid [env_object devUS] NotAnObject
           [env_object devUS_eu]).
  - intros [|k] item; [|destruct k; discriminate].
    intros [= <-]. exists devUS. vm_compute. reflexivity.
  - reflexivity.
Defined.

(** X20. What [loadConfig] returns.  It succeeds only on a file that
    holds an array, with one configuration per entry, each with a
    non-empty name, client id and secret and an environment id of the
    UUID format.  Conversely the array of the objects of such
    configurations is loaded back as those configurations. *)
Theorem loadConfig_accepts_well_formed (file : ConfigFile)
    (configs : list EnvConfig) :
  (loadConfig file = Accepted configs ->
   exists items,
     file = Content (JsArray items)
     /\ length configs = length items
     /\ Forall well_formed configs)
  /\ (Forall well_formed configs ->
      loadConfig (Content (JsArray (map env_object configs)))
      = Accepted configs).
Proof.
  split.
  - destruct file as [|m|[|items]]; try discriminate.
    unfold loadConfig, validateAndParseEnvironments.
    destruct (validate_from 0 items) as [cs|] eqn:Hv; [|discriminate].
    intros [= <-]. exists items. split; [reflexivity|].
    eapply validate_from_accepts, Hv.
  - intros Hw. unfold loadConfig, validateAndParseEnvironments.
    now rewrite validate_from_round_trip.
Qed.

(** The two environments of the samples, written and loaded back. *)
Lemma loadConfig_accepts_well_formed_witness :
  loadConfig (Content (JsArray [env_object devUS; env_object devUS_eu]))
  = Accepted [devUS; devUS_eu]
  /\ Forall well_formed [devUS; devUS_eu].
Proof.
  destruct (loadConfig_accepts_well_formed
              (Content (JsArray [env_object devUS; env_object devUS_eu]))
              [devUS; devUS_eu]) as [Hsound Hback].
  assert (H : loadConfig (Content (JsArray [env_object devUS;
                                            env_object devUS_eu]))
              = Accepted [devUS; devUS_eu]).
  { apply Hback. repeat constructor; discriminate. }
  split; [exact H|].
  destruct (Hsound H) as (items & _ & _ & Hw). exact Hw.
Defined.

(** X21. Loaded configurations and the token cache: two configurations
    that [loadConfig] returned have the same cache key only if they name
    the same tenant and the same client, so no two different tenants or
    clients of a configuration file ever share a token. *)
Theorem loaded_configs_share_tokens_only_for_same_client
    (file : ConfigFile) (configs : list EnvConfig) (e1 e2 : EnvConfig) :
  loadConfig file = Accepted configs ->
  e1 ∈ configs -> e2 ∈ configs ->
  cacheKey e1 = cacheKey e2 ->
  EnvConfig.envId e1 = EnvConfig.envId e2
  /\ EnvConfig.clientId e1 = EnvConfig.clientId e2.
Proof.
  intros Hload H1 H2 Hk.
  assert (Hw : Forall well_formed configs).
  { destruct file as [|m|[|items]]; try discriminate.
    unfold loadConfig, validateAndParseEnvironments in Hload.
    destruct (validate_from 0 items) as [cs|] eqn:Hv; [|discriminate].
    injection Hload as <-. eapply validate_from_accepts, Hv. }
  rewrite Forall_forall in Hw.
  apply cacheKey_inj; [apply (Hw e1 H1) | apply (Hw e2 H2) | exact Hk].
Qed.

(** Two entries for one tenant and client, under different names. *)
Lemma loaded_configs_share_tokens_only_for_same_client_witness :
  EnvConfig.envId devUS = EnvConfig.envId devUS_alias
  /\ EnvConfig.clientId devUS = EnvConfig.clientId devUS_alias.
Proof.
  apply (loaded_configs_share_tokens_only_for_same_client
           (Content (JsArray [env_object devUS; env_object devUS_alias]))
           [devUS; devUS_alias]).
  - vm_compute. reflexivity.
  - left.
  - right. left.
  - reflexivity.
Defined.

(** ** fsio.ts and ui.ts *)

Example scan_names :
  replace_first "login.json" ".json" EmptyString = "login"
  /\ replace_first "a.json.json" ".json" EmptyString = "a.json"
  /\ replace_first "v1.json-old.json" ".json" EmptyString = "v1-old.json"
  /\ endsWith "login.json" ".json" = true
  /\ endsWith "login.json.bak" ".json" = false
  /\ endsWith "json" ".json" = false.
Proof. vm_compute. repeat split; reflexivity. Qed.

Lemma endsWith_spec (s suffix : string) :
  endsWith s suffix = true <-> exists a, s = a +:+ suffix.
Proof.
  split.
  - induction s as [|c s IH]; cbn [endsWith]; intros H.
    + apply orb_true_iff in H as [H|H]; [|discriminate].
      apply String.eqb_eq in H as <-. now exists EmptyString.
    + apply orb_true_iff in H as [H|H].
      * apply String.eqb_eq in H as <-. now exists EmptyString.
      * destruct (IH H) as [a ->]. now exists (String c a).
  - intros [a ->]. induction a as [|c a IH].
    + rewrite append_empty.
      destruct suffix; cbn [endsWith]; now rewrite String.eqb_refl.
    + rewrite append_cons. cbn [endsWith]. rewrite IH. apply orb_true_r.
Qed.

Lemma string_drop_length (s p : string) :
  startsWith s p = true ->
  (String.length (string_drop (String.length p) s) + String.length p
   = String.length s)%nat.
Proof.
  revert s. induction p as [|c p IH]; intros s H.
  - simpl. destruct s; simpl; lia.
  - destruct s as [|d s]; simpl in H; [discriminate|].
    destruct (Ascii.eqb c d); [|discriminate].
    simpl. rewrite <- (IH s H). lia.
Qed.

Lemma replace_first_length (s p : string) :
  includes s p = true ->
  (String.length (replace_first s p EmptyString) + String.length p
   = String.length s)%nat.
Proof.
  induction s as [|c s IH]; intros H.
  - simpl in H. apply orb_true_iff in H as [H|H]; [|discriminate].
    simpl. rewrite H. rewrite append_empty. now apply string_drop_length.
  - cbn [replace_first]. cbn [includes] in H.
    destruct (startsWith (String c s) p) eqn:Hs.
    + rewrite append_empty. now apply string_drop_length.
    + simpl in H. simpl. rewrite <- (IH H). lia.
Qed.

Lemma replace_first_stem (stem : string) :
  includes stem "." = false ->
  replace_first (stem +:+ ".json") ".json" EmptyString = stem.
Proof.
  induction stem as [|c stem IH]; intros H; [reflexivity|].
  cbn [includes] in H. apply orb_false_iff in H as [Hc H].
  rewrite append_cons. cbn [replace_first].
  assert (Hs : startsWith (String c (stem +:+ ".json")) ".json" = false).
  { cbn [startsWith] in Hc |- *.
    destruct (Ascii.eqb "." c); [discriminate|reflexivity]. }
  rewrite Hs, (IH H). reflexivity.
Qed.

Lemma scan_entry_filename content filename :
  LocalFormFile.filename (scan_entry content filename) = filename.
Proof. unfold scan_entry. now destruct (content filename). Qed.

(** X22. The name [scanFormsDir] gives a file.  For a file that passes
    the [.json] filter the name is the file name without its first
    [.json], so it is five characters shorter; when the part before the
    extension has no dot, the name is that part and putting the
    extension back gives the file name. *)
Theorem scan_entry_name (content : string -> Checked Json)
    (filename : string) :
  LocalFormFile.filename (scan_entry content filename) = filename
  /\ (endsWith filename ".json" = true ->
      (String.length (LocalFormFile.name (scan_entry content filename)) + 5
       = String.length filename)%nat)
  /\ (forall stem,
        filename = stem +:+ ".json" -> includes stem "." = false ->
        endsWith filename ".json" = true
        /\ LocalFormFile.name (scan_entry content filename) = stem).
Proof.
  assert (Hn : LocalFormFile.name (scan_entry content filename)
               = replace_first filename ".json" EmptyString)
    by (unfold scan_entry; destruct (content filename); reflexivity).
  split; [unfold scan_entry; destruct (content filename); reflexivity|].
  rewrite Hn. split.
  - intros He. apply endsWith_spec in He as [a ->].
    apply (replace_first_length (a +:+ ".json") ".json").
    apply includes_spec. exists a, EmptyString. reflexivity.
  - intros stem -> Hs. split.
    + apply endsWith_spec. now exists stem.
    + now apply replace_first_stem.
Qed.

(** The file [login.json]. *)
Lemma scan_entry_name_witness :
  (String.length (LocalFormFile.name
                    (scan_entry (fun _ => Accepted login_form) "login.json"))
   + 5 = String.length "login.json")%nat
  /\ LocalFormFile.name
       (scan_entry (fun _ => Accepted login_form) "login.json") = "login".
Proof.
  destruct (scan_entry_name (fun _ => Accepted login_form) "login.json")
    as (_ & Hlen & Hstem).
  split.
  - apply Hlen. reflexivity.
  - apply (Hstem "login"); reflexivity.
Defined.

Section ScanFacts.
Variable localeCompare : string -> string -> Z.

Hypothesis localeCompare_total :
  forall a b, (localeCompare a b <= 0 \/ localeCompare b a <= 0)%Z.
Hypothesis localeCompare_trans :
  forall a b c, (localeCompare a b <= 0)%Z -> (localeCompare b c <= 0)%Z ->
                (localeCompare a c <= 0)%Z.

Lemma scan_entry_valid content filename :
  (LocalFormFile.isValid (scan_entry content filename) = true
   <-> exists formData, content filename = Accepted formData)
  /\ (forall message, content filename = Rejected message ->
                      LocalFormFile.error (scan_entry content filename)
                      = Some message).
Proof.
  unfold scan_entry. destruct (content filename) as [d|m]; simpl; split.
  - split; [eauto | reflexivity].
  - discriminate.
  - split; [discriminate | intros [d [=]]].
  - now intros m' [= <-].
Qed.

(** X23. What [scanFormsDir] lists.  For a directory that can be read it
    never fails: it returns one entry for every file name that ends in
    [.json] and for no other file, sorted by name under the collation;
    a file that cannot be read or parsed is not an error of the scan but
    an entry marked invalid that carries the message. *)
Theorem scanFormsDir_lists_json_files (files : list string)
    (content : string -> Checked Json) :
  exists entries,
    scanFormsDir localeCompare (Directory files content) = Accepted entries
    /\ Permutation entries
         (map (scan_entry content)
              (List.filter (fun file => endsWith file ".json") files))
    /\ StronglySorted
         (fun a b => (localeCompare (LocalFormFile.name a)
                                    (LocalFormFile.name b) <= 0)%Z) entries
    /\ Forall
         (fun entry =>
            endsWith (LocalFormFile.filename entry) ".json" = true
            /\ (LocalFormFile.isValid entry = true
                <-> exists formData,
                      content (LocalFormFile.filename entry)
                      = Accepted formData)
            /\ (forall message,
                  content (LocalFormFile.filename entry) = Rejected message ->
                  LocalFormFile.error entry = Some message))
         entries.
Proof.
  exists (Array_sort (byFileName localeCompare)
            (map (scan_entry content)
                 (List.filter (fun file => endsWith file ".json") files))).
  split; [|split; [|split]].
  - unfold scanFormsDir. now destruct (List.filter _ files).
  - apply Array_sort_perm.
  - apply (Array_sort_sorted (byFileName localeCompare)).
    + intros a b. apply localeCompare_total.
    + intros a b c. apply localeCompare_trans.
  - eapply Permutation_Forall; [symmetry; apply Array_sort_perm|].
    apply List.Forall_forall. intros entry Hin.
    apply in_map_iff in Hin as (filename & <- & Hin).
    apply filter_In in Hin as [_ He].
    rewrite scan_entry_filename.
    split; [exact He|]. apply scan_entry_valid.
Qed.
End ScanFacts.

(** The sample directory: [notes.txt] is left out, [broken.json] is
    listed as invalid. *)
Lemma scanFormsDir_lists_json_files_witness :
  exists entries,
    scanFormsDir bytewise sample_dir = Accepted entries
    /\ map LocalFormFile.name entries = ["broken"; "login"; "signup"]
    /\ map LocalFormFile.isValid entries = [false; true; true].
Proof.
  destruct (scanFormsDir_lists_json_files bytewise bytewise_total
              bytewise_trans
              ["signup.json"; "notes.txt"; "broken.json"; "login.json"]
              (fun filename =>
                 if String.eqb filename "broken.json"
                 then Rejected "Unexpected end of JSON input"
                 else Accepted login_form))
    as (entries & Hscan & _).
  exists entries. split; [exact Hscan|].
  vm_compute in Hscan. injection Hscan as <-. split; reflexivity.
Defined.

Section PromptFacts.
Variable checkbox : list LocalFormFile -> Promise (list LocalFormFile).

(** inquirer answers a checkbox prompt with some of its choices, in
    their order. *)
Hypothesis checkbox_selects :
  forall choices w selected w',
    checkbox choices w = (Return selected, w') -> sublist selected choices.

(** X24. What can be selected for import: the selection
    [selectLocalForms] returns consists of valid files of the list it
    was given, in their order; when the list has no valid file it
    returns the empty selection without asking. *)
Theorem selectLocalForms_selects_valid_files
    (localForms : list LocalFormFile) (w : World) :
  (forall selected w',
     selectLocalForms checkbox localForms w = (Return selected, w') ->
     sublist selected localForms
     /\ Forall (fun file => LocalFormFile.isValid file = true) selected)
  /\ (Forall (fun file => LocalFormFile.isValid file = false) localForms ->
      selectLocalForms checkbox localForms w = (Return [], w)).
Proof.
  split.
  - intros selected w' H.
    assert (Hsub : sublist selected
                     (List.filter LocalFormFile.isValid localForms)).
    { unfold selectLocalForms in H. destruct localForms as [|f l].
      - injection H as <- _. constructor.
      - destruct (List.filter LocalFormFile.isValid (f :: l)) as [|v vs].
        + injection H as <- _. constructor.
        + eapply checkbox_selects, H. }
    split.
    + etransitivity; [exact Hsub|].
      clear. induction localForms as [|f l IH]; simpl; [constructor|].
      destruct (LocalFormFile.isValid f);
        [now apply sublist_skip | now apply sublist_cons].
    + apply List.Forall_forall. intros file Hin.
      apply list_elem_of_In in Hin.
      apply (sublist_subseteq _ _ Hsub) in Hin.
      apply list_elem_of_In, filter_In in Hin. apply Hin.
  - intros Hall. unfold selectLocalForms.
    destruct localForms as [|f l]; [reflexivity|].
    assert (Hnone : List.filter LocalFormFile.isValid (f :: l) = []).
    { induction Hall as [|x xs Hx _ IH]; simpl; [reflexivity|].
      now rewrite Hx. }
    now rewrite Hnone.
Qed.
End PromptFacts.

Lemma select_all_selects choices w selected w' :
  select_all choices w = (Return selected, w') -> sublist selected choices.
Proof. now intros [= <- _]. Qed.

(** A list with one valid and one invalid file, every choice ticked. *)
Lemma selectLocalForms_selects_valid_files_witness :
  sublist [local_file "a.json" "a"]
          [invalid_file "broken.json" "broken"; local_file "a.json" "a"]
  /\ Forall (fun file => LocalFormFile.isValid file = true)
            [local_file "a.json" "a"].
Proof.
  destruct (selectLocalForms_selects_valid_files select_all
              select_all_selects
              [invalid_file "broken.json" "broken"; local_file "a.json" "a"]
              world0) as [H _].
  apply (H _ world0). reflexivity.
Defined.

Section LoadFacts.
Variable content : string -> Checked Json.
Variable promptForMultipleFormNames :
  list (LocalFormFile * Json) -> Promise (gmap string string).

Hypothesis prompt_returns :
  forall formsWithData w,
  exists nameMap w',
    promptForMultipleFormNames formsWithData w = (Return nameMap, w').




End LoadFacts.


Section NamePromptFacts.
Variable input : string -> string -> Promise string.
Variable answers : string -> string -> string.

(** The user answers every question; the answer depends on the question
    and its default. *)
Hypothesis input_answers :
  forall message current w,
    input message current w = (Return (answers message current), w).






End NamePromptFacts.


